(** * The MLX sidecar server (python-backend/server.py)

    A shallow embedding of the FastAPI handlers [get_status], [load_model],
    [generate_text] and [unload_model], of the three module globals they
    share, and of the response-cleaning block of [generate_text].

    Python [str] values are sequences of Unicode code points; they are
    modelled as lists of code points ([N]), so that [str.strip] sees the
    same whitespace characters as in Python.  The external libraries
    (mlx_lm, the tokenizer, the Metal cache) are modelled by their
    outcomes: a call either returns a value or raises an exception. *)

From Stdlib Require Import Ascii String.
From Stdlib Require Import List Bool Arith ZArith NArith QArith Lia.
Import ListNotations.
Close Scope Q_scope.
Open Scope nat_scope.

(** ** Python strings *)

Module PyStr.

Definition char := N.
Definition str := list char.

(** A literal of the source, as its list of code points. *)
Definition py (s : string) : str := map N_of_ascii (list_ascii_of_string s).

Definition char_eqb (a b : char) : bool := N.eqb a b.

Fixpoint str_eqb (a b : str) : bool :=
  match a, b with
  | [], [] => true
  | x :: a', y :: b' => char_eqb x y && str_eqb a' b'
  | _, _ => false
  end.

(** [s.startswith(sub)] *)
Fixpoint starts_with (sub s : str) : bool :=
  match sub, s with
  | [], _ => true
  | a :: sub', b :: s' => char_eqb a b && starts_with sub' s'
  | _ :: _, [] => false
  end.

(** The lowest index [i' >= 0] of [s] at which [sub] occurs, shifted by
    [i]; [None] when there is none. *)
Fixpoint find_at (sub s : str) (i : nat) : option nat :=
  if starts_with sub s then Some i
  else match s with
       | [] => None
       | _ :: s' => find_at sub s' (S i)
       end.

(** [s.find(sub, start)]: the lowest index at or after [start] where
    [sub] occurs, or -1. *)
Definition find (s sub : str) (start : nat) : Z :=
  if length s <? start then (-1)%Z
  else match find_at sub (skipn start s) start with
       | Some i => Z.of_nat i
       | None => (-1)%Z
       end.

(** [sub in s] *)
Definition contains (sub s : str) : bool :=
  match find_at sub s 0 with Some _ => true | None => false end.

(** [s.count(sub)]: the number of non-overlapping occurrences, found
    from left to right.  Every round consumes at least one character of a
    non-empty [sub], so [S (length s)] rounds are enough. *)
Fixpoint count_fuel (fuel : nat) (s sub : str) : nat :=
  match fuel with
  | 0 => 0
  | S fuel' =>
      match find_at sub s 0 with
      | None => 0
      | Some i => S (count_fuel fuel' (skipn (i + length sub) s) sub)
      end
  end.

Definition count (s sub : str) : nat := count_fuel (S (length s)) s sub.

(** [s.split(sep)] for a non-empty separator. *)
Fixpoint split_fuel (fuel : nat) (s sep : str) : list str :=
  match fuel with
  | 0 => [s]
  | S fuel' =>
      match find_at sep s 0 with
      | None => [s]
      | Some i => firstn i s :: split_fuel fuel' (skipn (i + length sep) s) sep
      end
  end.

Definition split (s sep : str) : list str := split_fuel (S (length s)) s sep.

(** [sep.join(parts)] *)
Fixpoint join (sep : str) (parts : list str) : str :=
  match parts with
  | [] => []
  | [p] => p
  | p :: ps => p ++ sep ++ join sep ps
  end.

(** [c.isspace()] on one code point: the characters [str.strip()]
    removes. *)
Definition isspace (c : char) : bool :=
  ((9 <=? c) && (c <=? 13) || (28 <=? c) && (c <=? 32)
   || (c =? 133) || (c =? 160) || (c =? 5760)
   || (8192 <=? c) && (c <=? 8202)
   || (c =? 8232) || (c =? 8233) || (c =? 8239) || (c =? 8287)
   || (c =? 12288))%N.

Fixpoint lstrip (s : str) : str :=
  match s with
  | [] => []
  | c :: s' => if isspace c then lstrip s' else s
  end.

Definition rstrip (s : str) : str := rev (lstrip (rev s)).

(** [s.strip()] *)
Definition strip (s : str) : str := rstrip (lstrip s).

(** [s[:i]] for a non-negative [i] *)
Definition slice_to (s : str) (i : Z) : str := firstn (Z.to_nat i) s.

End PyStr.

(** ** The response-cleaning block of [generate_text] (lines 209-237) *)

Module Cleaner.
Import PyStr.

Definition THINK_OPEN : str := py "<think>".
Definition THINK_CLOSE : str := py "</think>".
Definition OUTPUT : str := py "Output:".
Definition TEXT : str := py "Text:".
(** The separator of paragraphs, two line feeds. *)
Definition BLANK_LINE : str := [10%N; 10%N].

(** [re.sub(r'<think>.*?</think>', '', response, flags=re.DOTALL)]: the
    scan goes from left to right; where the opening marker is followed,
    anywhere later, by a closing marker, the text up to and including the
    nearest closing marker is dropped and the scan goes on behind it;
    every other character is copied.  One character at least is consumed
    per round. *)
Fixpoint re_sub_think_fuel (fuel : nat) (s : str) : str :=
  match fuel with
  | 0 => s
  | S fuel' =>
      match s with
      | [] => []
      | c :: s' =>
          if starts_with THINK_OPEN s then
            match find_at THINK_CLOSE (skipn (length THINK_OPEN) s) 0 with
            | Some k =>
                re_sub_think_fuel fuel'
                  (skipn (length THINK_OPEN + k + length THINK_CLOSE) s)
            | None => c :: re_sub_think_fuel fuel' s'
            end
          else c :: re_sub_think_fuel fuel' s'
      end
  end.

Definition re_sub_think (response : str) : str :=
  re_sub_think_fuel (length response) response.

(** The [for part in parts[1:]] loop: the first part that is not empty
    once stripped, cut at its first blank line. *)
Fixpoint first_output_part (parts : list str) : option str :=
  match parts with
  | [] => None
  | part :: rest =>
      let clean_part := strip part in
      match clean_part with
      | [] => first_output_part rest
      | _ :: _ => Some (hd [] (split clean_part BLANK_LINE))
      end
  end.

(** Lines 215-222. *)
Definition take_first_output (response : str) : str :=
  if contains OUTPUT response then
    let parts := split response OUTPUT in
    match first_output_part (tl parts) with
    | Some r => r
    | None => response
    end
  else response.

(** Lines 225-234. *)
Definition cut_text_loop (response : str) : str :=
  if 1 <? count response TEXT then
    let first_text_idx := find response TEXT 0 in
    if (0 <? first_text_idx)%Z then strip (slice_to response first_text_idx)
    else if (first_text_idx =? 0)%Z then
      let second_text_idx := find response TEXT 5 in
      if (0 <? second_text_idx)%Z
      then strip (slice_to response second_text_idx)
      else response
    else response
  else response.

(** The body of [if response:] on a string. *)
Definition clean_text (response : str) : str :=
  match response with
  | [] => response
  | _ :: _ =>
      strip (cut_text_loop (take_first_output (re_sub_think response)))
  end.

(** The whole block; [None] is Python's [None], which the guard
    [if response:] skips like the empty string. *)
Definition clean_model_response (response : option str) : option str :=
  match response with
  | None => None
  | Some s => Some (clean_text s)
  end.

End Cleaner.

(** ** Occurrences of a marker, for the statements about the cleaner *)

Module Occ.
Import PyStr Cleaner.

(** [sub] occurs somewhere in [s]. *)
Definition occurs (sub s : str) : Prop :=
  exists a c, s = a ++ sub ++ c.

(** [sub] occurs at two places of [s] that do not overlap. *)
Definition twice (sub s : str) : Prop :=
  exists a b c, s = a ++ sub ++ b ++ sub ++ c.

(** No proper non-empty end of [sub] is also a beginning of [sub], so
    that two occurrences of [sub] never overlap. *)
Definition border_free (sub : str) : bool :=
  forallb (fun k => negb (starts_with (skipn k sub) sub))
          (seq 1 (length sub - 1)).

(** Only whitespace: what [strip] turns into the empty string. *)
Definition blank (s : str) : Prop := Forall (fun c => isspace c = true) s.

(** A text made of blank pieces separated by the marker "Output:". *)
Inductive blank_tail : str -> Prop :=
| blank_tail_last (b : str) : blank b -> blank_tail b
| blank_tail_more (b w : str) :
    blank b -> blank_tail w -> blank_tail (b ++ OUTPUT ++ w).

(** The first paragraph of [s]: [s.split('\n\n')[0]]. *)
Definition first_paragraph (s : str) : str := hd [] (split s BLANK_LINE).

End Occ.

(** ** The handlers and the global model state *)

Module Server.
Import PyStr Cleaner.

(** An exception of an external call; [TypeError] is told apart because
    [generate_text] catches it separately.  [str(e)] is the message. *)
Inductive exn : Type :=
| TypeError (msg : str)
| OtherError (msg : str).

Definition exn_str (e : exn) : str :=
  match e with TypeError m => m | OtherError m => m end.

Inductive outcome (A : Type) : Type :=
| Returns (a : A)
| Raises (e : exn).
Arguments Returns {A} a.
Arguments Raises {A} e.

(** What a handler gives back to FastAPI: its response model, or the
    [HTTPException] it raised. *)
Inductive http (A : Type) : Type :=
| OK (body : A)
| HTTPException (status_code : Z) (detail : str).
Arguments OK {A} body.
Arguments HTTPException {A} status_code detail.

(** [float] fields are only stored and passed on, never computed with;
    decimal literals stand for themselves. *)
Definition float := Q.

Definition message : Type := str * str.   (* role, content *)

(** The tokenizer object returned by [mlx_lm.load], through the two
    methods the server calls.  [apply_chat_template messages tokenize
    add_generation_prompt enable_thinking], where [enable_thinking] is
    [None] when the keyword is not passed. *)
Record Tokenizer : Type := {
  apply_chat_template :
    list message -> bool -> bool -> option bool -> outcome str;
  encode : str -> outcome (list N)
}.

(** The model weights are opaque to the server. *)
Definition Model := N.

(** The three globals [model], [tokenizer], [current_model_path]. *)
Record Globals : Type := {
  model : option Model;
  tokenizer : option Tokenizer;
  current_model_path : option str
}.

Definition initial : Globals :=
  {| model := None; tokenizer := None; current_model_path := None |}.

Definition is_some {A} (o : option A) : bool :=
  match o with Some _ => true | None => false end.

Record LoadRequest : Type := { lr_model_path : str }.

Record GenerateRequest : Type := {
  prompt : str;
  max_tokens : Z;
  temperature : float
}.

Record LoadResponse : Type := { l_status : str; l_model_path : str }.

Record GenerateResponse : Type := {
  response : str;
  tokens_generated : nat
}.

Record StatusResponse : Type := {
  status : str;
  model_loaded : bool;
  model_path : option str
}.

(** [GET /status] *)
Definition get_status (g : Globals) : StatusResponse :=
  {| status := py "running";
     model_loaded := is_some (model g);
     model_path := current_model_path g |}.

(** [POST /load].  [loaded] is what [mlx_lm.load(request.model_path)]
    does in this call; a failing [from mlx_lm import load] is the same
    outcome as a raising [load], since it can only happen while no model
    was ever loaded. *)
Definition load_model (g : Globals) (request : LoadRequest)
    (loaded : outcome (Model * Tokenizer)) : Globals * http LoadResponse :=
  let g1 :=
    match model g with
    | Some _ =>
        {| model := None; tokenizer := None;
           current_model_path := current_model_path g |}
    | None => g
    end in
  match loaded with
  | Returns (m, t) =>
      ({| model := Some m; tokenizer := Some t;
          current_model_path := Some (lr_model_path request) |},
       OK {| l_status := py "loaded";
             l_model_path := lr_model_path request |})
  | Raises e =>
      (g1, HTTPException 500 (py "Failed to load model: " ++ exn_str e))
  end.

Inductive log_record : Type :=
| Warning (msg : str).

(** [POST /unload].  [cleared] is what [mx.metal.clear_cache()] (with its
    import) does in this call. *)
Definition unload_model (g : Globals) (cleared : outcome unit)
    : Globals * http StatusResponse * list log_record :=
  match model g with
  | None =>
      (g,
       OK {| status := py "no_model_loaded"; model_loaded := false;
             model_path := None |},
       [])
  | Some _ =>
      ({| model := None; tokenizer := None; current_model_path := None |},
       OK {| status := py "unloaded"; model_loaded := false;
             model_path := None |},
       match cleared with
       | Returns _ => []
       | Raises e =>
           [Warning (py "Failed to clear MLX Metal cache: " ++ exn_str e)]
       end)
  end.

(** The keyword arguments of the call [make_sampler(...)]; [None] is a
    keyword that is not passed. *)
Record sampler_args : Type := {
  temp : float;
  top_p : option float;
  min_p : option float;
  min_tokens_to_keep : option Z
}.

Record logits_processor_args : Type := {
  repetition_penalty : float;
  repetition_context_size : Z
}.

(** Lines 184-188. *)
Definition make_sampler_call (request : GenerateRequest) : sampler_args :=
  {| temp := temperature request;
     top_p := Some (8 # 10)%Q;
     min_p := None;
     min_tokens_to_keep := Some 1%Z |}.

(** Lines 192-195. *)
Definition make_logits_processors_call : logits_processor_args :=
  {| repetition_penalty := (115 # 100)%Q;
     repetition_context_size := 64%Z |}.

(** The calls a handler makes into the tokenizer and mlx_lm, in order. *)
Inductive call : Type :=
| CallApplyChatTemplate (messages : list message) (enable_thinking : option bool)
| CallMakeSampler (args : sampler_args)
| CallMakeLogitsProcessors (args : logits_processor_args)
| CallGenerate (formatted_prompt : str) (max_tokens : Z)
    (sampler : sampler_args) (logits_processors : logits_processor_args)
| CallEncode (text : str).

(** [mlx_lm.generate(model, tokenizer, prompt=..., max_tokens=...,
    sampler=..., logits_processors=..., verbose=False)] *)
Definition generate_fn : Type :=
  Model -> Tokenizer -> str -> Z -> sampler_args -> logits_processor_args
  -> outcome str.

Definition generation_failed {A} (e : exn) : http A :=
  HTTPException 500 (py "Generation failed: " ++ exn_str e).

(** Lines 163-179: the template with thinking disabled, and without the
    keyword when the tokenizer rejects it with a [TypeError]. *)
Definition format_prompt (t : Tokenizer) (messages : list message)
    : outcome str * list call :=
  match apply_chat_template t messages false true (Some false) with
  | Returns p => (Returns p, [CallApplyChatTemplate messages (Some false)])
  | Raises (TypeError _) =>
      (apply_chat_template t messages false true None,
       [CallApplyChatTemplate messages (Some false);
        CallApplyChatTemplate messages None])
  | Raises e => (Raises e, [CallApplyChatTemplate messages (Some false)])
  end.

(** [POST /generate]: the response and the external calls made.  The
    constructors [make_sampler] and [make_logits_processors] only record
    their arguments; what can raise is the tokenizer and the generator. *)
Definition generate_text (generate : generate_fn) (g : Globals)
    (request : GenerateRequest) : http GenerateResponse * list call :=
  match model g, tokenizer g with
  | Some m, Some t =>
      let messages := [(py "user", prompt request)] in
      let (formatted, calls1) := format_prompt t messages in
      match formatted with
      | Raises e => (generation_failed e, calls1)
      | Returns formatted_prompt =>
          let sampler := make_sampler_call request in
          let logits_processors := make_logits_processors_call in
          let calls2 :=
            calls1 ++ [CallMakeSampler sampler;
                       CallMakeLogitsProcessors logits_processors;
                       CallGenerate formatted_prompt (max_tokens request)
                         sampler logits_processors] in
          match generate m t formatted_prompt (max_tokens request)
                  sampler logits_processors with
          | Raises e => (generation_failed e, calls2)
          | Returns raw =>
              let cleaned := clean_text raw in
              match cleaned with
              | [] =>
                  (OK {| response := cleaned; tokens_generated := 0 |}, calls2)
              | _ :: _ =>
                  match encode t cleaned with
                  | Raises e =>
                      (generation_failed e, calls2 ++ [CallEncode cleaned])
                  | Returns ids =>
                      (OK {| response := cleaned;
                             tokens_generated := length ids |},
                       calls2 ++ [CallEncode cleaned])
                  end
              end
          end
      end
  | _, _ =>
      (HTTPException 400 (py "No model loaded. Call /load first."), [])
  end.

(** The request body of [POST /generate] as pydantic sees it: the fields
    of the JSON object, each present or not.  [GenerateRequest] declares
    three of them; pydantic drops the fields a model does not declare. *)
Record generate_body : Type := {
  b_prompt : option str;
  b_max_tokens : option Z;
  b_temperature : option float;
  b_top_p : option float;
  b_min_p : option float
}.

Definition default {A} (d : A) (o : option A) : A :=
  match o with Some a => a | None => d end.

(** Validation into [GenerateRequest] (lines 45-49); [None] is the 422
    of a missing [prompt]. *)
Definition parse_generate_request (b : generate_body) : option GenerateRequest :=
  match b_prompt b with
  | None => None
  | Some p =>
      Some {| prompt := p;
              max_tokens := default 150%Z (b_max_tokens b);
              temperature := default (7 # 10)%Q (b_temperature b) |}
  end.

(** One request to the server, with what the outside world does during
    it. *)
Inductive request : Type :=
| ReqStatus
| ReqLoad (r : LoadRequest) (loaded : outcome (Model * Tokenizer))
| ReqGenerate (generate : generate_fn) (r : GenerateRequest)
| ReqUnload (cleared : outcome unit).

Definition step (g : Globals) (r : request) : Globals :=
  match r with
  | ReqStatus => g
  | ReqLoad lr loaded => fst (load_model g lr loaded)
  | ReqGenerate _ _ => g
  | ReqUnload cleared => fst (fst (unload_model g cleared))
  end.

(** The globals after a sequence of requests. *)
Definition run (g : Globals) (rs : list request) : Globals :=
  fold_left step rs g.

(** [handle] and [tokenizer] are both set or both unset. *)
Definition paired (g : Globals) : Prop :=
  is_some (model g) = is_some (tokenizer g).

Definition load_succeeds (r : request) : bool :=
  match r with
  | ReqLoad _ (Returns _) => true
  | _ => false
  end.

(** The sampler arguments every request is served with, but for the
    temperature. *)
Definition fixed_sampler (temperature : float) : sampler_args :=
  {| temp := temperature; top_p := Some (8 # 10)%Q; min_p := None;
     min_tokens_to_keep := Some 1%Z |}.

(** The load request of test_load_returns_error_for_missing_path. *)
Definition failing_path : LoadRequest :=
  {| lr_model_path := py "/nonexistent/path/to/model" |}.

(** A request body that sets [top_p] and [min_p]. *)
Definition body_with_top_p : generate_body :=
  {| b_prompt := Some (py "Translate: Hello world");
     b_max_tokens := None;
     b_temperature := None;
     b_top_p := Some (1 # 2)%Q;
     b_min_p := Some (1 # 10)%Q |}.

End Server.

(** ** Whether a text holds a reasoning block *)

Module Blocks.
Import PyStr Cleaner.

(** An opening marker that a closing marker follows.  It is enough to
    look behind the first opening marker: what follows a later one also
    follows the first. *)
Definition has_block (s : str) : bool :=
  match find_at THINK_OPEN s 0 with
  | Some i => contains THINK_CLOSE (skipn (i + length THINK_OPEN) s)
  | None => false
  end.

End Blocks.

(** ** Shutdown, and what a sequence of requests leaves resident *)

Module Lifecycle.
Import PyStr Cleaner Server.

(** The part of [lifespan] after [yield] (lines 76-83). *)
Definition shutdown (g : Globals) : Globals :=
  match model g with
  | Some _ =>
      {| model := None; tokenizer := None; current_model_path := None |}
  | None => g
  end.

(** The path of the load that made the resident model resident: set by a
    load that succeeds, lost with a load that fails and with an unload. *)
Definition track (p : option str) (r : request) : option str :=
  match r with
  | ReqLoad lr (Returns _) => Some (lr_model_path lr)
  | ReqLoad _ (Raises _) => None
  | ReqUnload _ => None
  | ReqStatus => p
  | ReqGenerate _ _ => p
  end.

Definition resident_path (rs : list request) : option str :=
  fold_left track rs None.

Definition is_load (r : request) : bool :=
  match r with
  | ReqLoad _ _ => true
  | _ => false
  end.





End Lifecycle.

(** ** The scripts that call the server (scripts/optimize_prompt.py,
    scripts/benchmark_correction.py) *)

Module Scripts.
Import PyStr Cleaner Server.

Definition MODEL_PATH : str := py "mlx-community/Qwen3-4B-4bit".

(** What becomes of a request sent with [urlopen]: answered; handled by
    the server but not answered within the timeout; or never received.
    The last two raise in the client, as does an answer with an error
    status. *)
Inductive delivery : Type :=
| Answered
| NoReply
| Unreachable.

(** [ensure_model_loaded] (optimize_prompt.py, lines 83-103) against the
    server in state [g]: the globals of the server afterwards and the
    boolean returned.  [status_answered] tells whether the status request
    is answered, [d] what becomes of the load request, [loaded] what
    [mlx_lm.load] does in it. *)
Definition ensure_model_loaded (g : Globals) (status_answered : bool)
    (d : delivery) (loaded : outcome (Model * Tokenizer)) : Globals * bool :=
  if status_answered then
    if model_loaded (get_status g) then (g, true)
    else
      let request := {| lr_model_path := MODEL_PATH |} in
      match d with
      | Unreachable => (g, false)
      | NoReply => (fst (load_model g request loaded), false)
      | Answered =>
          match load_model g request loaded with
          | (g', OK _) => (g', true)
          | (g', HTTPException _ _) => (g', false)
          end
      end
  else (g, false).

(** [s.lstrip(chars)] *)
Fixpoint lstrip_chars (chars s : str) : str :=
  match s with
  | [] => []
  | c :: s' =>
      if existsb (char_eqb c) chars then lstrip_chars chars s' else s
  end.

(** [s.strip(chars)] *)
Definition strip_chars (chars s : str) : str :=
  rev (lstrip_chars chars (rev (lstrip_chars chars s))).

Definition FENCE_JSON : str := py "```json".
Definition FENCE : str := py "```".

(** [parts[i]]; [None] is the [IndexError]. *)
Definition part (parts : list str) (i : nat) : option str :=
  nth_error parts i.

(** The text handed to [json.loads] (benchmark_correction.py, lines
    179-184; optimize_prompt.py, lines 146-149). *)
Definition fenced_json (cleaned : str) : option str :=
  if contains FENCE_JSON cleaned then
    match part (split cleaned FENCE_JSON) 1 with
    | Some p =>
        match part (split p FENCE) 0 with
        | Some q => Some (strip q)
        | None => None
        end
    | None => None
    end
  else if contains FENCE cleaned then
    match part (split cleaned FENCE) 1 with
    | Some p =>
        match part (split p FENCE) 0 with
        | Some q => Some (strip q)
        | None => None
        end
    | None => None
    end
  else Some cleaned.

Section Scoring.

(** [str.lower], which follows the Unicode tables. *)
Variable lower : str -> str.

(** [normalize] (benchmark_correction.py, lines 117-118). *)
Definition normalize (text : str) : str :=
  lower (strip_chars (py ".,!?;:") (strip text)).

(** The verdict on one run (benchmark_correction.py, lines 195-202). *)
Definition passed (result expected selected : str) : bool :=
  let is_exact := str_eqb (normalize result) (normalize expected) in
  let is_contained := contains (normalize expected) (normalize result) in
  if str_eqb expected selected then is_contained
  else is_exact || is_contained.

End Scoring.



End Scripts.

(** ** Building the prompt (scripts/optimize_prompt.py) *)

Module Prompt.
Import PyStr.

(** One digit of [format(n, '04x')]. *)
Definition hex_digit (d : N) : char :=
  if (d <? 10)%N then (48 + d)%N else (87 + d)%N.

(** ['{0:04x}'.format(n)] for [n] below 65536. *)
Definition hex4 (n : N) : str :=
  [hex_digit ((n / 4096) mod 16); hex_digit ((n / 256) mod 16);
   hex_digit ((n / 16) mod 16); hex_digit (n mod 16)]%N.

(** A backslash, [u] and four digits. *)
Definition u_escape (n : N) : str := 92%N :: 117%N :: hex4 n.

(** What [json.dumps] writes for one character of a string (with its
    default [ensure_ascii=True]): the short escapes, the printable ASCII
    characters as they are, and [\uXXXX] for everything else, as a
    surrogate pair above the basic plane. *)
Definition escape_char (c : char) : str :=
  if (c =? 34)%N then [92; 34]%N
  else if (c =? 92)%N then [92; 92]%N
  else if (c =? 10)%N then [92; 110]%N
  else if (c =? 13)%N then [92; 114]%N
  else if (c =? 9)%N then [92; 116]%N
  else if (c =? 8)%N then [92; 98]%N
  else if (c =? 12)%N then [92; 102]%N
  else if ((32 <=? c) && (c <=? 126))%N then [c]
  else if (c <? 65536)%N then u_escape c
  else
    let n := (c - 65536)%N in
    u_escape (N.lor 55296 (N.land (N.shiftr n 10) 1023))
    ++ u_escape (N.lor 56320 (N.land n 1023)).

(** [json_escape_content]: [json.dumps(s)[1:-1]], the string literal
    without its two quotes. *)
Definition json_escape_content (s : str) : str := flat_map escape_char s.

(** [s.replace(old, new)] for a non-empty [old]. *)
Definition replace (s old new : str) : str := join new (split s old).

(** [interpolate_prompt] (lines 54-72). *)
Definition interpolate_prompt (template context selection hints : str)
    : str :=
  let safe_context := json_escape_content context in
  let safe_selection := json_escape_content selection in
  let prompt := replace template (py "${context}") safe_context in
  let prompt := replace prompt (py "${selection}") safe_selection in
  let prompt := replace prompt (py "${hints}") hints in
  let prompt := replace prompt (py "${dictionary}") hints in
  prompt.

(** A template seen as literal text and placeholders. *)
Inductive slot : Type := Context | Selection | Hints | Dictionary.

Inductive piece : Type :=
| Lit (s : str)
| Slot (k : slot).

Definition placeholder (k : slot) : str :=
  match k with
  | Context => py "${context}"
  | Selection => py "${selection}"
  | Hints => py "${hints}"
  | Dictionary => py "${dictionary}"
  end.

(** The text of the template. *)
Definition render (ps : list piece) : str :=
  concat (map (fun p => match p with
                        | Lit s => s
                        | Slot k => placeholder k
                        end) ps).

(** What each placeholder stands for. *)
Definition value (context selection hints : str) (k : slot) : str :=
  match k with
  | Context => json_escape_content context
  | Selection => json_escape_content selection
  | Hints => hints
  | Dictionary => hints
  end.

(** The template with every placeholder filled at once. *)
Definition fill (context selection hints : str) (ps : list piece) : str :=
  concat (map (fun p => match p with
                        | Lit s => s
                        | Slot k => value context selection hints k
                        end) ps).

(** The dollar sign does not occur in [s]. *)
Definition dollar_free (s : str) : Prop := ~ In 36%N s.

(** Printable ASCII other than the quote and the backslash. *)
Definition plain (c : char) : bool :=
  ((32 <=? c) && (c <=? 126) && negb (c =? 34) && negb (c =? 92))%N.

Definition printable (c : char) : bool := ((32 <=? c) && (c <=? 126))%N.

Definition slot_eqb (a b : slot) : bool :=
  match a, b with
  | Context, Context | Selection, Selection
  | Hints, Hints | Dictionary, Dictionary => true
  | _, _ => false
  end.

(** The template while only the placeholders in [done] are filled. *)
Definition stage (context selection hints : str) (done : slot -> bool)
    (p : piece) : str :=
  match p with
  | Lit s => s
  | Slot k => if done k then value context selection hints k
              else placeholder k
  end.

(** No occurrence of [old] begins inside [seg], whatever follows it. *)
Definition skippable (old seg : str) : Prop :=
  forall j rest, j < length seg ->
                 starts_with old (skipn j (seg ++ rest)) = false.

End Prompt.

(** ** A tokenizer, a generator and requests to run the handlers on *)

Module Fixtures.
Import PyStr Cleaner Server.

(** A tokenizer without the [enable_thinking] keyword, whose template
    wraps the user turn and whose tokens are the characters. *)
Definition plain_tokenizer : Tokenizer :=
  {| apply_chat_template := fun messages _ _ enable_thinking =>
       match enable_thinking with
       | Some _ => Raises (TypeError (py "unexpected keyword argument"))
       | None =>
           Returns (py "<|im_start|>user "
                    ++ concat (map snd messages)
                    ++ py "<|im_end|>")
       end;
     encode := fun text => Returns text |}.

(** A generator that answers every prompt with the same raw text. *)
Definition canned_generate : generate_fn :=
  fun _ _ _ _ _ _ => Returns (py "<think>hm</think>Output: Hello").

Definition hello_request : GenerateRequest :=
  {| prompt := py "Translate: Hello world"; max_tokens := 50%Z;
     temperature := (7 # 10)%Q |}.

Definition model_request : LoadRequest :=
  {| lr_model_path := py "mlx-community/Qwen3-0.6B-4bit" |}.

Definition boom : exn := OtherError (py "boom").

(** The globals with a model resident. *)
Definition resident : Globals :=
  fst (load_model initial model_request (Returns (1%N, plain_tokenizer))).

End Fixtures.

(** ** The cleaning block on the inputs of tests/test_server.py *)

Module CleanerTests.
Import PyStr Cleaner.

Definition nl : string := String (ascii_of_nat 10) EmptyString.

Example removes_thinking_blocks :
  clean_text (py "<think>Let me analyze this...</think>Hello world")
  = py "Hello world".
Proof. vm_compute. reflexivity. Qed.

Example removes_multiline_thinking_blocks :
  clean_text (py ("<think>" ++ nl ++ "Step 1: Analyze" ++ nl
                  ++ "Step 2: Process" ++ nl ++ "</think>The answer is 42"))
  = py "The answer is 42".
Proof. vm_compute. reflexivity. Qed.

Example extracts_first_output_section :
  clean_text (py ("Output: Hello" ++ nl ++ nl ++ "Output: World")) = py "Hello".
Proof. vm_compute. reflexivity. Qed.

Example handles_repeated_text_pattern :
  clean_text (py "Hello world Text: repeated Text: again") = py "Hello world".
Proof. vm_compute. reflexivity. Qed.

Example strips_whitespace :
  clean_text (py ("  " ++ nl ++ "  Hello world  " ++ nl ++ "  "))
  = py "Hello world".
Proof. vm_compute. reflexivity. Qed.

Example clean_text_passes_through :
  clean_text (py "This is a clean translation.")
  = py "This is a clean translation.".
Proof. vm_compute. reflexivity. Qed.

Example leading_text_marker :
  clean_text (py "Text: a Text: b Text: c") = py "Text: a".
Proof. vm_compute. reflexivity. Qed.

Example output_marker_then_blank_line :
  clean_text (py "Output:" ++ BLANK_LINE ++ py "Hello") = py "Hello".
Proof. vm_compute. reflexivity. Qed.

Example output_marker_alone :
  clean_text (py "Hello Output: ") = py "Hello Output:".
Proof. vm_compute. reflexivity. Qed.

Example two_blocks :
  clean_text (py ("<think>a</think>Hello <think>" ++ nl ++ "b</think>world"))
  = py "Hello world".
Proof. vm_compute. reflexivity. Qed.

Example unclosed_block :
  clean_text (py "<think>Hello") = py "<think>Hello".
Proof. vm_compute. reflexivity. Qed.

Example nested_think_marker :
  clean_text (py "<thi<think>a</think>nk>b</think>c") = py "<think>b</think>c".
Proof. vm_compute. reflexivity. Qed.

End CleanerTests.

(** ** The handlers on one scenario: load, generate, unload *)

Module ServerTests.
Import PyStr Cleaner Server Fixtures.

Example status_at_start :
  get_status initial
  = {| status := py "running"; model_loaded := false; model_path := None |}.
Proof. reflexivity. Qed.

Example status_when_resident :
  get_status resident
  = {| status := py "running"; model_loaded := true;
       model_path := Some (py "mlx-community/Qwen3-0.6B-4bit") |}.
Proof. reflexivity. Qed.

Example generate_when_resident :
  generate_text canned_generate resident hello_request
  = (OK {| response := py "Hello"; tokens_generated := 5 |},
     [CallApplyChatTemplate [(py "user", py "Translate: Hello world")]
        (Some false);
      CallApplyChatTemplate [(py "user", py "Translate: Hello world")] None;
      CallMakeSampler (fixed_sampler (7 # 10)%Q);
      CallMakeLogitsProcessors make_logits_processors_call;
      CallGenerate
        (py "<|im_start|>user Translate: Hello world<|im_end|>") 50%Z
        (fixed_sampler (7 # 10)%Q) make_logits_processors_call;
      CallEncode (py "Hello")]).
Proof. vm_compute. reflexivity. Qed.

Example generate_when_generator_raises :
  fst (generate_text (fun _ _ _ _ _ _ => Raises boom) resident hello_request)
  = HTTPException 500 (py "Generation failed: boom").
Proof. vm_compute. reflexivity. Qed.

Example unload_then_status :
  get_status (fst (fst (unload_model resident (Returns tt))))
  = {| status := py "running"; model_loaded := false; model_path := None |}.
Proof. reflexivity. Qed.

Example unload_after_failed_reload :
  let g := fst (load_model resident failing_path (Raises boom)) in
  unload_model g (Returns tt)
  = (g,
     OK {| status := py "no_model_loaded"; model_loaded := false;
           model_path := None |},
     [])
  /\ model_path (get_status g) = Some (py "mlx-community/Qwen3-0.6B-4bit").
Proof. split; reflexivity. Qed.

End ServerTests.

(** ** The lifecycle of the model slot *)

Module ServerSpec.
Import PyStr Cleaner Server.

Lemma generate_needs_both (generate : generate_fn) (g : Globals)
    (r : GenerateRequest) :
  is_some (model g) && is_some (tokenizer g) = false ->
  generate_text generate g r
  = (HTTPException 400 (py "No model loaded. Call /load first."), []).
Proof.
  unfold generate_text.
  destruct (model g), (tokenizer g); simpl; intro H;
    try discriminate; reflexivity.
Qed.

Lemma step_paired (g : Globals) (r : request) : paired g -> paired (step g r).
Proof.
  unfold paired.
  destruct r as [| lr [[m t] | e] | gen gr | cleared]; simpl; auto.
  - intro H. destruct (model g) eqn:Hm; simpl; [reflexivity |].
    rewrite Hm. exact H.
  - unfold unload_model. intro H.
    destruct (model g) eqn:Hm; simpl; [reflexivity |].
    rewrite Hm. exact H.
Qed.

Lemma run_paired (rs : list request) :
  forall g, paired g -> paired (run g rs).
Proof.
  unfold run.
  induction rs as [| r rs IH]; simpl; intros g Hg.
  - exact Hg.
  - apply IH, step_paired, Hg.
Qed.

Lemma step_stays_empty (g : Globals) (r : request) :
  load_succeeds r = false -> model g = None -> model (step g r) = None.
Proof.
  destruct r as [| lr [[m t] | e] | gen gr | cleared]; simpl; intros Hr Hg;
    try discriminate; auto.
  - rewrite Hg. exact Hg.
  - unfold unload_model. rewrite Hg. exact Hg.
Qed.

Lemma run_stays_empty (rs : list request) :
  forall g, existsb load_succeeds rs = false -> model g = None ->
            model (run g rs) = None.
Proof.
  unfold run.
  induction rs as [| r rs IH]; simpl; intros g Hrs Hg.
  - exact Hg.
  - apply orb_false_elim in Hrs. destruct Hrs as [Hr Hrs].
    apply IH; [exact Hrs | apply step_stays_empty; assumption].
Qed.

(** C1. While [model] is unset, and so as long as no load has
    succeeded, [generate_text] answers with the HTTP 400 "No model loaded.
    Call /load first." and has called neither the tokenizer nor mlx_lm,
    whatever they would have done; that answer is not the HTTP 500 of a
    failed generation. *)
Theorem generate_without_model_is_precondition_error
    (generate : generate_fn) (g : Globals) (rs : list request)
    (r : GenerateRequest) :
  (model g = None ->
   generate_text generate g r
   = (HTTPException 400 (py "No model loaded. Call /load first."), []))
  /\ (existsb load_succeeds rs = false ->
      generate_text generate (run initial rs) r
      = (HTTPException 400 (py "No model loaded. Call /load first."), []))
  /\ (forall e : exn,
        HTTPException 400 (py "No model loaded. Call /load first.")
        <> @generation_failed GenerateResponse e).
Proof.
  split; [| split].
  - intro Hg. apply generate_needs_both. rewrite Hg. reflexivity.
  - intro Hrs. apply generate_needs_both.
    rewrite (run_stays_empty rs initial Hrs eq_refl). reflexivity.
  - intros e. unfold generation_failed. discriminate.
Qed.

(** C2. After any sequence of requests, whatever the outcome of each
    load and unload, the model handle and the tokenizer are both set or
    both unset. *)
Theorem handle_and_tokenizer_paired (rs : list request) :
  is_some (model (run initial rs)) = is_some (tokenizer (run initial rs)).
Proof.
  apply (run_paired rs initial). reflexivity.
Qed.

(** C8. [unload_model] always answers with a [StatusResponse], never
    with an error: without a model it changes nothing and reports
    "no_model_loaded"; with one it clears the three globals and reports
    "unloaded"; both report [model_loaded] false and no [model_path].  A
    failing cache release changes only the log, where it leaves one
    warning. *)
Theorem unload_never_fails (g : Globals) (cleared : outcome unit) :
  (model g = None ->
   unload_model g cleared
   = (g, OK {| status := py "no_model_loaded"; model_loaded := false;
               model_path := None |}, []))
  /\ (is_some (model g) = true ->
      fst (unload_model g cleared)
      = ({| model := None; tokenizer := None; current_model_path := None |},
         OK {| status := py "unloaded"; model_loaded := false;
               model_path := None |})
      /\ (forall u, cleared = Returns u -> snd (unload_model g cleared) = [])
      /\ (forall e, cleared = Raises e ->
          snd (unload_model g cleared)
          = [Warning (py "Failed to clear MLX Metal cache: " ++ exn_str e)]))
  /\ (exists body,
        snd (fst (unload_model g cleared)) = OK body
        /\ model_loaded body = false /\ model_path body = None)
  /\ model_loaded (get_status (fst (fst (unload_model g cleared)))) = false.
Proof.
  unfold unload_model.
  destruct (model g) as [m |] eqn:Hm; simpl.
  - split; [discriminate |].
    split; [intros _; split; [reflexivity |] |].
    + split; [intros u ->; reflexivity | intros e ->; reflexivity].
    + split; [| reflexivity].
      eexists. split; [reflexivity | split; reflexivity].
  - split; [reflexivity |].
    split; [discriminate |].
    split; [| rewrite Hm; reflexivity].
    eexists. split; [reflexivity | split; reflexivity].
Qed.

(** C10. When a model loaded from [lr_model_path r1] is resident and a
    later load fails, the handle and the tokenizer are cleared but the
    recorded path is not: status then reports [model_loaded] false with
    the path of the previous model. *)
Theorem failed_reload_keeps_old_path (g : Globals) (r1 r2 : LoadRequest)
    (m : Model) (t : Tokenizer) (e : exn) :
  let g1 := fst (load_model g r1 (Returns (m, t))) in
  let g2 := fst (load_model g1 r2 (Raises e)) in
  get_status g1
  = {| status := py "running"; model_loaded := true;
       model_path := Some (lr_model_path r1) |}
  /\ model g2 = None /\ tokenizer g2 = None
  /\ get_status g2
     = {| status := py "running"; model_loaded := false;
          model_path := Some (lr_model_path r1) |}.
Proof.
  simpl. repeat split.
Qed.



(** C7, counterexample. A request body with [top_p] 0.5 and [min_p] 0.1
    is served by a sampler with [top_p] 0.8 and no [min_p]. *)
Lemma body_top_p_not_honored :
  option_map make_sampler_call (parse_generate_request body_with_top_p)
  = Some {| temp := (7 # 10)%Q; top_p := Some (8 # 10)%Q; min_p := None;
            min_tokens_to_keep := Some 1%Z |}
  /\ Some (8 # 10)%Q <> b_top_p body_with_top_p
  /\ None <> b_min_p body_with_top_p.
Proof. repeat split; vm_compute; discriminate. Qed.

Lemma format_prompt_calls (t : Tokenizer) (ms : list message) (c : call) :
  In c (snd (format_prompt t ms)) ->
  exists k, c = CallApplyChatTemplate ms k.
Proof.
  unfold format_prompt.
  destruct (apply_chat_template t ms false true (Some false))
    as [p | [msg | msg]]; simpl; intros H;
    repeat (destruct H as [H | H]; [eexists; symmetry; exact H |]);
    contradiction.
Qed.

(** C7, amended. The sampler of [generate_text] is built from the
    temperature of the request alone, 0.7 when the body omits it, with
    [top_p] fixed at 0.8 and [min_tokens_to_keep] at 1, and [min_p] not
    passed; [top_p] and [min_p] of the request body do not reach it: every
    sampler constructed or handed to mlx_lm during the request is that
    one, and two bodies that differ only in [top_p] and [min_p] are
    validated into the same request. *)
Theorem sampler_uses_temperature_only (generate : generate_fn) (g : Globals)
    (body : generate_body) (r : GenerateRequest) :
  parse_generate_request body = Some r ->
  make_sampler_call r = fixed_sampler (default (7 # 10)%Q (b_temperature body))
  /\ (forall c, In c (snd (generate_text generate g r)) ->
        match c with
        | CallMakeSampler s => s = fixed_sampler (temperature r)
        | CallGenerate _ _ s _ => s = fixed_sampler (temperature r)
        | _ => True
        end)
  /\ (forall tp mp,
        parse_generate_request
          {| b_prompt := b_prompt body; b_max_tokens := b_max_tokens body;
             b_temperature := b_temperature body;
             b_top_p := tp; b_min_p := mp |} = Some r).
Proof.
  unfold parse_generate_request. intro Hparse.
  destruct (b_prompt body) as [p |] eqn:Hp; [| discriminate].
  injection Hparse as <-.
  split; [reflexivity |].
  split; [| intros tp mp; simpl; reflexivity].
  intros c. unfold generate_text.
  set (r := {| prompt := p; max_tokens := _; temperature := _ |}).
  destruct (model g) as [m |]; [| intros []].
  destruct (tokenizer g) as [t |]; [| intros []].
  pose proof (format_prompt_calls t [(py "user", prompt r)]) as Hfmt.
  destruct (format_prompt t [(py "user", prompt r)]) as [[fp | e] calls1];
    simpl in Hfmt.
  - assert (Hcalls2 :
      In c (calls1 ++ [CallMakeSampler (make_sampler_call r);
                       CallMakeLogitsProcessors make_logits_processors_call;
                       CallGenerate fp (max_tokens r) (make_sampler_call r)
                         make_logits_processors_call]) ->
      match c with
      | CallMakeSampler s => s = fixed_sampler (temperature r)
      | CallGenerate _ _ s _ => s = fixed_sampler (temperature r)
      | _ => True
      end).
    { intro H. apply in_app_or in H. destruct H as [H | H].
      - destruct (Hfmt c H) as [k ->]. exact I.
      - simpl in H.
        destruct H as [<- | [<- | [<- | []]]]; try exact I; reflexivity. }
    destruct (generate m t fp (max_tokens r) (make_sampler_call r)
                make_logits_processors_call) as [raw | e].
    + destruct (clean_text raw) as [| ch cleaned'] eqn:Hc.
      * simpl. exact Hcalls2.
      * destruct (encode t (ch :: cleaned')) as [ids | e]; simpl;
          intro H; apply in_app_or in H; destruct H as [H | H];
          try (apply Hcalls2; exact H);
          simpl in H; destruct H as [<- | []]; exact I.
    + simpl. exact Hcalls2.
  - simpl. intro H. destruct (Hfmt c H) as [k ->]. exact I.
Qed.

End ServerSpec.

(** ** Facts about the string operations *)

Module PyStrFacts.
Import PyStr Occ.

Lemma char_eqb_eq (a b : char) : char_eqb a b = true <-> a = b.
Proof. apply N.eqb_eq. Qed.

Lemma char_eqb_refl (a : char) : char_eqb a a = true.
Proof. apply N.eqb_refl. Qed.

Lemma starts_with_iff (sub s : str) :
  starts_with sub s = true <-> exists t, s = sub ++ t.
Proof.
  revert s. induction sub as [| a sub IH]; intros s; simpl.
  - split; [intros _; exists s; reflexivity | reflexivity].
  - destruct s as [| b s].
    + split; [discriminate | intros [t Ht]; discriminate].
    + rewrite andb_true_iff, char_eqb_eq, IH. split.
      * intros [-> [t ->]]. exists t. reflexivity.
      * intros [t Ht]. injection Ht as -> ->. split; [reflexivity |].
        exists t. reflexivity.
Qed.

Lemma starts_with_app (sub t : str) : starts_with sub (sub ++ t) = true.
Proof. apply starts_with_iff. exists t. reflexivity. Qed.

Lemma starts_with_length (sub s : str) :
  starts_with sub s = true -> length sub <= length s.
Proof.
  intro H. apply starts_with_iff in H. destruct H as [t ->].
  rewrite length_app. lia.
Qed.

Lemma starts_with_nil_r (sub : str) :
  starts_with sub [] = true -> sub = [].
Proof. destruct sub; [reflexivity | discriminate]. Qed.

(** The marker occurs in [s] at index [j]. *)
Lemma occurs_at_iff (sub s : str) (j : nat) :
  j <= length s ->
  (starts_with sub (skipn j s) = true
   <-> exists c, s = firstn j s ++ sub ++ c).
Proof.
  intro Hj. rewrite starts_with_iff. split.
  - intros [t Ht]. exists t. rewrite <- Ht. symmetry. apply firstn_skipn.
  - intros [c Hc]. exists c.
    rewrite Hc at 1. rewrite skipn_app.
    rewrite length_firstn, Nat.min_l by exact Hj.
    rewrite Nat.sub_diag. simpl.
    rewrite skipn_all2; [reflexivity |].
    rewrite length_firstn. lia.
Qed.

Lemma occurs_at_app (sub a c : str) :
  starts_with sub (skipn (length a) (a ++ sub ++ c)) = true.
Proof.
  rewrite skipn_app, Nat.sub_diag, skipn_all. simpl. apply starts_with_app.
Qed.

Lemma find_at_shift (sub s : str) (i : nat) :
  find_at sub s i = option_map (Nat.add i) (find_at sub s 0).
Proof.
  revert i. induction s as [| c s IH]; intros i; simpl.
  - destruct (starts_with sub []); simpl; [f_equal; lia | reflexivity].
  - destruct (starts_with sub (c :: s)); simpl; [f_equal; lia |].
    rewrite (IH (S i)), (IH 1).
    destruct (find_at sub s 0); simpl; [f_equal; lia | reflexivity].
Qed.

Lemma find_at_cons (sub : str) (c : char) (s : str) :
  find_at sub (c :: s) 0
  = if starts_with sub (c :: s) then Some 0
    else option_map S (find_at sub s 0).
Proof.
  simpl. destruct (starts_with sub (c :: s)); [reflexivity |].
  rewrite find_at_shift. destruct (find_at sub s 0); reflexivity.
Qed.

Lemma find_at_Some (sub s : str) (i : nat) :
  find_at sub s 0 = Some i ->
  starts_with sub (skipn i s) = true
  /\ i <= length s
  /\ (forall j, j < i -> starts_with sub (skipn j s) = false).
Proof.
  revert i. induction s as [| c s IH]; intros i.
  - simpl. destruct (starts_with sub []) eqn:E; [| discriminate].
    intros [= <-]. simpl. repeat split; [exact E | lia | lia].
  - rewrite find_at_cons.
    destruct (starts_with sub (c :: s)) eqn:E.
    + intros [= <-]. simpl. repeat split; [exact E | lia | lia].
    + destruct (find_at sub s 0) as [k |] eqn:Ek; [| discriminate].
      simpl. intros [= <-].
      destruct (IH k eq_refl) as (H1 & H2 & H3).
      repeat split; [exact H1 | simpl; lia |].
      intros [| j] Hj; [exact E | simpl; apply H3; lia].
Qed.

Lemma find_at_None (sub s : str) :
  find_at sub s 0 = None -> forall j, starts_with sub (skipn j s) = false.
Proof.
  induction s as [| c s IH].
  - simpl. destruct (starts_with sub []) eqn:E; [discriminate |].
    intros _ j. rewrite skipn_nil. exact E.
  - rewrite find_at_cons.
    destruct (starts_with sub (c :: s)) eqn:E; [discriminate |].
    destruct (find_at sub s 0) eqn:Ek; [discriminate |].
    intros _ [| j]; [exact E | simpl; apply IH; reflexivity].
Qed.

Lemma find_at_first (sub s : str) (i : nat) :
  starts_with sub (skipn i s) = true ->
  i <= length s ->
  (forall j, j < i -> starts_with sub (skipn j s) = false) ->
  find_at sub s 0 = Some i.
Proof.
  intros H1 H2 H3.
  destruct (find_at sub s 0) as [k |] eqn:Ek.
  - destruct (find_at_Some _ _ _ Ek) as (K1 & K2 & K3).
    destruct (Nat.lt_trichotomy k i) as [Hlt | [-> | Hgt]].
    + rewrite (H3 k Hlt) in K1. discriminate.
    + reflexivity.
    + rewrite (K3 i Hgt) in H1. discriminate.
  - rewrite (find_at_None _ _ Ek i) in H1. discriminate.
Qed.

(** The text around the first occurrence. *)
Lemma find_at_split (sub s : str) (i : nat) :
  find_at sub s 0 = Some i ->
  s = firstn i s ++ sub ++ skipn (i + length sub) s.
Proof.
  intro H. destruct (find_at_Some _ _ _ H) as (H1 & H2 & _).
  apply starts_with_iff in H1. destruct H1 as [t Ht].
  rewrite <- (firstn_skipn i s) at 1. f_equal.
  rewrite Nat.add_comm, <- skipn_skipn, Ht.
  rewrite skipn_app, Nat.sub_diag, skipn_all. reflexivity.
Qed.

Lemma contains_true_iff (sub s : str) :
  contains sub s = true <-> occurs sub s.
Proof.
  unfold contains, occurs. split.
  - destruct (find_at sub s 0) as [i |] eqn:E; [| discriminate].
    intros _. eexists. eexists. apply (find_at_split _ _ _ E).
  - intros (a & c & ->).
    destruct (find_at sub (a ++ sub ++ c) 0) eqn:E; [reflexivity |].
    pose proof (find_at_None _ _ E (length a)) as H.
    rewrite occurs_at_app in H. discriminate.
Qed.

Lemma contains_false_iff (sub s : str) :
  contains sub s = false <-> ~ occurs sub s.
Proof.
  rewrite <- contains_true_iff. destruct (contains sub s); split;
    congruence.
Qed.

Lemma contains_find_at (sub s : str) :
  contains sub s = false <-> find_at sub s 0 = None.
Proof.
  unfold contains. destruct (find_at sub s 0); split; congruence.
Qed.

Lemma occurs_mono (sub l s r : str) :
  occurs sub s -> occurs sub (l ++ s ++ r).
Proof.
  intros (a & c & ->). exists (l ++ a), (c ++ r).
  repeat rewrite <- app_assoc. reflexivity.
Qed.

Lemma twice_mono (sub l s r : str) :
  twice sub s -> twice sub (l ++ s ++ r).
Proof.
  intros (a & b & c & ->). exists (l ++ a), b, (c ++ r).
  repeat rewrite <- app_assoc. reflexivity.
Qed.

Lemma occurs_firstn (sub s : str) (n : nat) :
  occurs sub (firstn n s) -> occurs sub s.
Proof.
  intro H. rewrite <- (firstn_skipn n s).
  apply (occurs_mono sub [] (firstn n s) (skipn n s)) in H. exact H.
Qed.

Lemma twice_occurs (sub s : str) : twice sub s -> occurs sub s.
Proof.
  intros (a & b & c & ->). exists a, (b ++ sub ++ c). reflexivity.
Qed.

(** *** Enough fuel: the unfolding equations of [count] and [split] *)

Lemma find_at_advance (sub s : str) (i : nat) :
  sub <> [] -> find_at sub s 0 = Some i ->
  length (skipn (i + length sub) s) < length s.
Proof.
  intros Hsub H. destruct (find_at_Some _ _ _ H) as (H1 & H2 & _).
  apply starts_with_length in H1. rewrite length_skipn in *.
  destruct sub; [congruence | simpl in *; lia].
Qed.

Lemma split_fuel_enough (sep : str) (n : nat) :
  sep <> [] ->
  forall m s, length s < n -> length s < m ->
              split_fuel n s sep = split_fuel m s sep.
Proof.
  intro Hsep. induction n as [| n IH]; intros m s Hn Hm; [lia |].
  destruct m as [| m]; [lia |]. simpl.
  destruct (find_at sep s 0) as [i |] eqn:E; [| reflexivity].
  pose proof (find_at_advance _ _ _ Hsep E). f_equal. apply IH; lia.
Qed.

Lemma split_eq (s sep : str) :
  sep <> [] ->
  split s sep
  = match find_at sep s 0 with
    | None => [s]
    | Some i => firstn i s :: split (skipn (i + length sep) s) sep
    end.
Proof.
  intro Hsep. unfold split at 1. simpl.
  destruct (find_at sep s 0) as [i |] eqn:E; [| reflexivity].
  pose proof (find_at_advance _ _ _ Hsep E). f_equal.
  unfold split. apply split_fuel_enough; [exact Hsep | lia | lia].
Qed.

Lemma count_fuel_enough (sub : str) (n : nat) :
  sub <> [] ->
  forall m s, length s < n -> length s < m ->
              count_fuel n s sub = count_fuel m s sub.
Proof.
  intro Hsub. induction n as [| n IH]; intros m s Hn Hm; [lia |].
  destruct m as [| m]; [lia |]. simpl.
  destruct (find_at sub s 0) as [i |] eqn:E; [| reflexivity].
  pose proof (find_at_advance _ _ _ Hsub E). f_equal. apply IH; lia.
Qed.

Lemma count_eq (s sub : str) :
  sub <> [] ->
  count s sub
  = match find_at sub s 0 with
    | None => 0
    | Some i => S (count (skipn (i + length sub) s) sub)
    end.
Proof.
  intro Hsub. unfold count at 1. simpl.
  destruct (find_at sub s 0) as [i |] eqn:E; [| reflexivity].
  pose proof (find_at_advance _ _ _ Hsub E). f_equal.
  unfold count. apply count_fuel_enough; [exact Hsub | lia | lia].
Qed.

Lemma split_not_nil (s sep : str) : split s sep <> [].
Proof.
  unfold split. simpl. destruct (find_at sep s 0); discriminate.
Qed.

(** [sep.join(s.split(sep)) == s] *)
Lemma join_split (sep : str) :
  sep <> [] -> forall s, join sep (split s sep) = s.
Proof.
  intros Hsep s.
  remember (length s) as n eqn:Hn. revert s Hn.
  induction n as [n IH] using lt_wf_ind. intros s ->.
  rewrite split_eq by exact Hsep.
  destruct (find_at sep s 0) as [i |] eqn:E; [| reflexivity].
  pose proof (find_at_advance _ _ _ Hsep E) as Hlt.
  specialize (IH _ Hlt _ eq_refl).
  pose proof (split_not_nil (skipn (i + length sep) s) sep) as Hne.
  simpl. destruct (split (skipn (i + length sep) s) sep) as [| p ps];
    [congruence |].
  rewrite IH. symmetry. apply find_at_split. exact E.
Qed.

(** No part of a split contains the separator. *)
Lemma split_parts_free (sep : str) :
  sep <> [] ->
  forall s p, In p (split s sep) -> contains sep p = false.
Proof.
  intros Hsep s.
  remember (length s) as n eqn:Hn. revert s Hn.
  induction n as [n IH] using lt_wf_ind. intros s -> p.
  rewrite split_eq by exact Hsep.
  destruct (find_at sep s 0) as [i |] eqn:E.
  - pose proof (find_at_advance _ _ _ Hsep E) as Hlt.
    intros [<- | Hin]; [| exact (IH _ Hlt _ eq_refl p Hin)].
    apply contains_false_iff. intros (a & c & Hac).
    destruct (find_at_Some _ _ _ E) as (_ & Hi & Hmin).
    assert (Hlen : length a + length sep + length c = i).
    { apply (f_equal (@length _)) in Hac.
      rewrite length_firstn, Nat.min_l in Hac by exact Hi.
      repeat rewrite length_app in Hac. lia. }
    assert (Hsep' : length sep <> 0) by (destruct sep; simpl; congruence).
    assert (Hocc : starts_with sep (skipn (length a) s) = true).
    { apply starts_with_iff.
      rewrite <- (firstn_skipn i s), Hac.
      repeat rewrite <- app_assoc.
      rewrite skipn_app, Nat.sub_diag, skipn_all. simpl.
      eexists. reflexivity. }
    rewrite Hmin in Hocc by lia. discriminate.
  - intros [<- | []]. apply contains_find_at. exact E.
Qed.

(** Two separate occurrences are what [count] sees as more than one. *)
Lemma count_positive (s sub : str) :
  sub <> [] -> (0 < count s sub <-> occurs sub s).
Proof.
  intro Hsub. rewrite count_eq by exact Hsub.
  rewrite <- contains_true_iff. unfold contains.
  destruct (find_at sub s 0); split; intros; try lia; try discriminate;
    reflexivity.
Qed.

Lemma count_twice (s sub : str) :
  sub <> [] -> (1 < count s sub <-> twice sub s).
Proof.
  intro Hsub. rewrite count_eq by exact Hsub. split.
  - destruct (find_at sub s 0) as [i |] eqn:E; [| lia].
    intro H. assert (H' : 0 < count (skipn (i + length sub) s) sub) by lia.
    apply count_positive in H'; [| exact Hsub].
    destruct H' as (b & c & Hbc).
    exists (firstn i s), b, c. rewrite <- Hbc.
    apply find_at_split. exact E.
  - intros (a & b & c & ->).
    destruct (find_at sub (a ++ sub ++ b ++ sub ++ c) 0) as [i |] eqn:E.
    + apply -> Nat.succ_lt_mono. apply count_positive; [exact Hsub |].
      destruct (find_at_Some _ _ _ E) as (_ & _ & Hmin).
      assert (Hi : i <= length a).
      { destruct (Nat.le_gt_cases i (length a)) as [Hle | Hgt];
          [exact Hle |].
        pose proof (Hmin _ Hgt) as Hf. rewrite occurs_at_app in Hf.
        discriminate. }
      replace (a ++ sub ++ b ++ sub ++ c)
        with ((a ++ sub) ++ b ++ sub ++ c)
        by (repeat rewrite <- app_assoc; reflexivity).
      rewrite skipn_app.
      replace (i + length sub - length (a ++ sub)) with 0
        by (rewrite length_app; lia).
      simpl.
      exists (skipn (i + length sub) (a ++ sub) ++ b), c.
      repeat rewrite <- app_assoc. reflexivity.
    + pose proof (find_at_None _ _ E (length a)) as H.
      rewrite occurs_at_app in H. discriminate.
Qed.

(** *** A marker whose occurrences cannot overlap *)

Lemma border_free_spec (sub : str) (k : nat) :
  border_free sub = true -> 1 <= k < length sub ->
  starts_with (skipn k sub) sub = false.
Proof.
  unfold border_free. rewrite forallb_forall. intros H Hk.
  specialize (H k). rewrite in_seq in H.
  apply negb_true_iff, H. lia.
Qed.

Lemma occurs_at_before_free (sub pre rest : str) (j : nat) :
  border_free sub = true -> contains sub pre = false -> j < length pre ->
  starts_with sub (skipn j (pre ++ sub ++ rest)) = false.
Proof.
  intros Hb Hpre Hj.
  destruct (starts_with sub (skipn j (pre ++ sub ++ rest))) eqn:E;
    [| reflexivity].
  exfalso. apply contains_false_iff in Hpre.
  rewrite skipn_app in E.
  replace (j - length pre) with 0 in E by lia. simpl in E.
  apply starts_with_iff in E. destruct E as [t Ht].
  apply app_eq_app in Ht. destruct Ht as [e [[H1 H2] | [H1 H2]]].
  - (* the occurrence lies within [pre] *)
    apply Hpre. exists (firstn j pre), e.
    rewrite <- H1. symmetry. apply firstn_skipn.
  - (* the occurrence runs into the marker that follows *)
    assert (Hlen : length (skipn j pre) = length pre - j)
      by apply length_skipn.
    destruct e as [| c e].
    + rewrite app_nil_r in H1. apply Hpre.
      exists (firstn j pre), []. rewrite app_nil_r, H1.
      symmetry. apply firstn_skipn.
    + assert (Hl : length sub = length (skipn j pre) + S (length e)).
      { rewrite H1 at 1. rewrite length_app. reflexivity. }
      assert (Hk : 1 <= length (skipn j pre) < length sub) by lia.
      pose proof (border_free_spec sub _ Hb Hk) as Hf.
      assert (Hs : skipn (length (skipn j pre)) sub = c :: e).
      { rewrite H1. rewrite skipn_app, Nat.sub_diag, skipn_all.
        reflexivity. }
      rewrite Hs in Hf.
      assert (Hp : starts_with (c :: e) sub = true).
      { apply starts_with_iff.
        apply app_eq_app in H2. destruct H2 as [l [[K1 K2] | [K1 K2]]].
        - exists l. exact K1.
        - apply (f_equal (@length _)) in K1.
          rewrite length_app in K1. simpl in K1.
          destruct l as [| x l].
          + exists []. rewrite app_nil_r. 
            apply (f_equal (@length _)) in Hs. simpl in Hs.
            rewrite length_skipn in Hs. simpl in K1. lia.
          + simpl in K1. lia. }
      rewrite Hp in Hf. discriminate.
Qed.

(** Where the text before a border-free marker is free of it, that
    marker is the first occurrence. *)
Lemma find_at_app_free (sub pre rest : str) :
  border_free sub = true -> contains sub pre = false ->
  find_at sub (pre ++ sub ++ rest) 0 = Some (length pre).
Proof.
  intros Hb Hpre. apply find_at_first.
  - apply occurs_at_app.
  - rewrite length_app. lia.
  - intros j Hj. apply occurs_at_before_free; assumption.
Qed.

(** *** [strip] *)

Lemma blank_app (a b : str) : blank (a ++ b) <-> blank a /\ blank b.
Proof. apply Forall_app. Qed.

Lemma blank_rev (s : str) : blank (rev s) <-> blank s.
Proof.
  unfold blank. rewrite !Forall_forall.
  split; intros H c Hc; apply H; [apply -> in_rev | apply <- in_rev];
    exact Hc.
Qed.

Lemma lstrip_blank (s : str) : lstrip s = [] <-> blank s.
Proof.
  induction s as [| c s IH]; simpl.
  - split; [constructor | reflexivity].
  - destruct (isspace c) eqn:E.
    + rewrite IH. split.
      * intro H. constructor; assumption.
      * intro H. inversion H. assumption.
    + split; [discriminate |]. intro H. inversion H. congruence.
Qed.

Lemma lstrip_app_blank (l s : str) : blank l -> lstrip (l ++ s) = lstrip s.
Proof.
  induction 1 as [| c l Hc _ IH]; simpl; [reflexivity |].
  rewrite Hc. exact IH.
Qed.

(** What [lstrip] cuts off is blank, and what it leaves does not begin
    with whitespace. *)
Lemma lstrip_cut (s : str) :
  exists l, s = l ++ lstrip s /\ blank l.
Proof.
  induction s as [| c s [l [Hl Hb]]]; simpl.
  - exists []. split; [reflexivity | constructor].
  - destruct (isspace c) eqn:E.
    + exists (c :: l). simpl. split; [f_equal; exact Hl |].
      constructor; assumption.
    + exists []. split; [reflexivity | constructor].
Qed.

Lemma lstrip_head (s : str) (c : char) (t : str) :
  lstrip s = c :: t -> isspace c = false.
Proof.
  induction s as [| d s IH]; simpl; [discriminate |].
  destruct (isspace d) eqn:E; [exact IH |].
  intros [= <- _]. exact E.
Qed.

Lemma lstrip_app_nonspace (a : str) (c : char) (b : str) :
  isspace c = false -> lstrip (a ++ c :: b) = lstrip a ++ c :: b.
Proof.
  intro Hc. induction a as [| d a IH]; simpl.
  - rewrite Hc. reflexivity.
  - destruct (isspace d); [exact IH | reflexivity].
Qed.

Lemma lstrip_idem (s : str) : lstrip (lstrip s) = lstrip s.
Proof.
  induction s as [| c s IH]; simpl; [reflexivity |].
  destruct (isspace c) eqn:E; [exact IH |]. simpl. rewrite E. reflexivity.
Qed.

Lemma rstrip_blank (s : str) : rstrip s = [] <-> blank s.
Proof.
  unfold rstrip. rewrite <- blank_rev, <- lstrip_blank. split.
  - intro H. apply (f_equal (@rev _)) in H.
    rewrite rev_involutive in H. exact H.
  - intros ->. reflexivity.
Qed.

Lemma rstrip_app_nonspace (a : str) (c : char) (b : str) :
  isspace c = false -> rstrip (a ++ c :: b) = a ++ c :: rstrip b.
Proof.
  intro Hc. unfold rstrip.
  rewrite rev_app_distr. simpl rev at 2. rewrite <- app_assoc. simpl.
  rewrite lstrip_app_nonspace by exact Hc.
  rewrite rev_app_distr. simpl. rewrite rev_involutive, <- app_assoc.
  reflexivity.
Qed.

Lemma rstrip_cut (s : str) :
  exists r, s = rstrip s ++ r /\ blank r.
Proof.
  unfold rstrip. destruct (lstrip_cut (rev s)) as [l [Hl Hb]].
  exists (rev l). split; [| apply blank_rev; exact Hb].
  rewrite <- rev_app_distr, <- Hl, rev_involutive. reflexivity.
Qed.

Lemma rstrip_idem (s : str) : rstrip (rstrip s) = rstrip s.
Proof.
  unfold rstrip. rewrite rev_involutive, lstrip_idem. reflexivity.
Qed.

(** [strip] cuts a blank beginning and a blank end off its argument. *)
Lemma strip_cut (s : str) :
  exists l r, s = l ++ strip s ++ r /\ blank l /\ blank r.
Proof.
  unfold strip.
  destruct (lstrip_cut s) as [l [Hl Hbl]].
  destruct (rstrip_cut (lstrip s)) as [r [Hr Hbr]].
  exists l, r. rewrite <- Hr. auto.
Qed.

Lemma strip_blank (s : str) : strip s = [] <-> blank s.
Proof.
  unfold strip. split.
  - intro H. apply rstrip_blank in H.
    destruct (lstrip_cut s) as [l [Hl Hb]].
    rewrite Hl. apply blank_app. split; assumption.
  - intro H. apply lstrip_blank in H. rewrite H. reflexivity.
Qed.

Lemma lstrip_rstrip (s : str) :
  lstrip (rstrip (lstrip s)) = rstrip (lstrip s).
Proof.
  destruct (lstrip s) as [| c t] eqn:E; [reflexivity |].
  apply lstrip_head in E.
  pose proof (rstrip_app_nonspace [] c t E) as H. simpl app in H.
  rewrite H. simpl. rewrite E. reflexivity.
Qed.

(** [s.strip().strip() == s.strip()] *)
Lemma strip_idem (s : str) : strip (strip s) = strip s.
Proof.
  unfold strip. rewrite lstrip_rstrip. apply rstrip_idem.
Qed.

Lemma strip_occurs (sub s : str) : occurs sub (strip s) -> occurs sub s.
Proof.
  intro H. destruct (strip_cut s) as (l & r & Hs & _).
  rewrite Hs. apply occurs_mono. exact H.
Qed.

Lemma strip_twice (sub s : str) : twice sub (strip s) -> twice sub s.
Proof.
  intro H. destruct (strip_cut s) as (l & r & Hs & _).
  rewrite Hs. apply twice_mono. exact H.
Qed.

Lemma strip_length (s : str) : length (strip s) <= length s.
Proof.
  destruct (strip_cut s) as (l & r & Hs & _).
  rewrite Hs at 2. rewrite !length_app. lia.
Qed.

(** A blank text holds no marker that begins with a visible character. *)
Lemma blank_no_occurrence (sub b : str) (c : char) (t : str) :
  sub = c :: t -> isspace c = false -> blank b -> contains sub b = false.
Proof.
  intros -> Hc Hb. apply contains_false_iff. intros (a & d & ->).
  apply blank_app in Hb. destruct Hb as [_ Hb]. inversion Hb. congruence.
Qed.

End PyStrFacts.

(** ** The cleaning block, stage by stage *)

Module CleanerSpec.
Import PyStr Cleaner Occ PyStrFacts.

(** *** The markers *)

Lemma think_open_border_free : border_free THINK_OPEN = true.
Proof. vm_compute. reflexivity. Qed.

Lemma think_close_border_free : border_free THINK_CLOSE = true.
Proof. vm_compute. reflexivity. Qed.

Lemma output_border_free : border_free OUTPUT = true.
Proof. vm_compute. reflexivity. Qed.

Lemma text_border_free : border_free TEXT = true.
Proof. vm_compute. reflexivity. Qed.

Lemma think_open_length : length THINK_OPEN = 7.
Proof. reflexivity. Qed.

Lemma think_close_length : length THINK_CLOSE = 8.
Proof. reflexivity. Qed.

Lemma output_length : length OUTPUT = 7.
Proof. reflexivity. Qed.

Lemma text_length : length TEXT = 5.
Proof. reflexivity. Qed.

Lemma output_not_nil : OUTPUT <> [].
Proof. discriminate. Qed.

Lemma text_not_nil : TEXT <> [].
Proof. discriminate. Qed.

Lemma blank_line_not_nil : BLANK_LINE <> [].
Proof. discriminate. Qed.

(** "Output:" begins with the visible [O] and ends with the visible
    colon. *)
Lemma output_first :
  exists t : str, OUTPUT = (79%N : char) :: t /\ isspace 79%N = false.
Proof. eexists. split; reflexivity. Qed.

Lemma output_last :
  exists t : str, OUTPUT = t ++ [58%N : char] /\ isspace 58%N = false.
Proof. exists (removelast OUTPUT). split; reflexivity. Qed.

Lemma text_first :
  exists t : str, TEXT = (84%N : char) :: t /\ isspace 84%N = false.
Proof. eexists. split; reflexivity. Qed.

(** *** Reasoning blocks: [re_sub_think] *)

Lemma re_sub_think_fuel_enough (n : nat) :
  forall m s, length s <= n -> length s <= m ->
              re_sub_think_fuel n s = re_sub_think_fuel m s.
Proof.
  induction n as [| n IH]; intros m s Hn Hm.
  - destruct s; [| simpl in Hn; lia]. destruct m; reflexivity.
  - destruct m as [| m].
    + destruct s; [reflexivity | simpl in Hm; lia].
    + destruct s as [| c s']; [reflexivity |].
      cbn [re_sub_think_fuel]. simpl in Hn, Hm.
      destruct (starts_with THINK_OPEN (c :: s'));
        [| f_equal; apply IH; lia].
      destruct (find_at THINK_CLOSE (skipn (length THINK_OPEN) (c :: s')) 0)
        as [k |]; [| f_equal; apply IH; lia].
      pose proof think_open_length as Ho.
      apply IH; rewrite length_skipn; cbn [length]; lia.
Qed.

(** The scan at an opening marker that a closing marker follows. *)
Lemma re_sub_think_match (s : str) (k : nat) :
  starts_with THINK_OPEN s = true ->
  find_at THINK_CLOSE (skipn (length THINK_OPEN) s) 0 = Some k ->
  re_sub_think s
  = re_sub_think (skipn (length THINK_OPEN + k + length THINK_CLOSE) s).
Proof.
  intros Ho Hc. destruct s as [| c s']; [discriminate |].
  unfold re_sub_think at 1. cbn [length re_sub_think_fuel].
  rewrite Ho, Hc. unfold re_sub_think.
  pose proof think_open_length as Hl.
  apply re_sub_think_fuel_enough; [| lia].
  rewrite length_skipn. cbn [length]. lia.
Qed.

(** The scan anywhere else. *)
Lemma re_sub_think_copy (c : char) (s' : str) :
  starts_with THINK_OPEN (c :: s') = false
  \/ find_at THINK_CLOSE (skipn (length THINK_OPEN) (c :: s')) 0 = None ->
  re_sub_think (c :: s') = c :: re_sub_think s'.
Proof.
  intros H. unfold re_sub_think at 1. cbn [length re_sub_think_fuel].
  destruct (starts_with THINK_OPEN (c :: s')) eqn:Ho.
  - destruct H as [H | H]; [discriminate |]. rewrite H. reflexivity.
  - reflexivity.
Qed.

Lemma contains_cons_false (sub : str) (c : char) (s : str) :
  contains sub (c :: s) = false -> contains sub s = false.
Proof.
  rewrite !contains_false_iff. intros H Hs. apply H.
  apply (occurs_mono sub [c] s []) in Hs.
  rewrite app_nil_r in Hs. exact Hs.
Qed.

(** One block: the text before it is kept, the block is dropped, and the
    scan goes on behind the closing marker. *)
Lemma re_sub_think_block (pre body post : str) :
  contains THINK_OPEN pre = false ->
  contains THINK_CLOSE body = false ->
  re_sub_think (pre ++ THINK_OPEN ++ body ++ THINK_CLOSE ++ post)
  = pre ++ re_sub_think post.
Proof.
  intros Hpre Hbody. induction pre as [| c pre IH].
  - cbn [app].
    rewrite (re_sub_think_match (THINK_OPEN ++ body ++ THINK_CLOSE ++ post)
               (length body)).
    + f_equal.
      replace (length THINK_OPEN + length body + length THINK_CLOSE)
        with (length (THINK_OPEN ++ body ++ THINK_CLOSE))
        by (rewrite !length_app; lia).
      replace (THINK_OPEN ++ body ++ THINK_CLOSE ++ post)
        with ((THINK_OPEN ++ body ++ THINK_CLOSE) ++ post)
        by (rewrite <- !app_assoc; reflexivity).
      rewrite skipn_app, Nat.sub_diag, skipn_all. reflexivity.
    + apply starts_with_app.
    + rewrite skipn_app, Nat.sub_diag, skipn_all. cbn [app skipn].
      apply find_at_app_free;
        [exact think_close_border_free | exact Hbody].
  - cbn [app]. rewrite re_sub_think_copy.
    + f_equal. apply IH. apply (contains_cons_false _ _ _ Hpre).
    + left.
      apply (occurs_at_before_free THINK_OPEN (c :: pre)
               (body ++ THINK_CLOSE ++ post) 0
               think_open_border_free Hpre).
      simpl. lia.
Qed.

(** Where no opening marker is followed by a closing marker, nothing is
    removed. *)
Lemma re_sub_think_no_block (s : str) :
  (forall a b, s = a ++ THINK_OPEN ++ b -> contains THINK_CLOSE b = false) ->
  re_sub_think s = s.
Proof.
  induction s as [| c s IH]; intro H; [reflexivity |].
  rewrite re_sub_think_copy.
  - f_equal. apply IH. intros a b ->. apply (H (c :: a) b). reflexivity.
  - destruct (starts_with THINK_OPEN (c :: s)) eqn:Ho; [| left; reflexivity].
    right. apply starts_with_iff in Ho. destruct Ho as [b Hb].
    apply contains_find_at. rewrite Hb.
    rewrite skipn_app, Nat.sub_diag, skipn_all. cbn [app skipn].
    apply (H [] b). exact Hb.
Qed.

(** *** The first "Output:" section: [take_first_output] *)

(** [sep.join(parts).split(sep) == parts] for parts free of the
    separator. *)
Lemma split_join (sep : str) (p : str) (ps : list str) :
  sep <> [] -> border_free sep = true ->
  Forall (fun q => contains sep q = false) (p :: ps) ->
  split (join sep (p :: ps)) sep = p :: ps.
Proof.
  intros Hsep Hb. revert p. induction ps as [| q ps IH]; intros p Hfree.
  - cbn [join]. rewrite split_eq by exact Hsep.
    inversion Hfree as [| ? ? Hp _]. apply contains_find_at in Hp.
    rewrite Hp. reflexivity.
  - inversion Hfree as [| ? ? Hp Hrest]. subst.
    change (join sep (p :: q :: ps)) with (p ++ sep ++ join sep (q :: ps)).
    rewrite split_eq by exact Hsep.
    rewrite (find_at_app_free sep p _ Hb Hp).
    rewrite firstn_app, Nat.sub_diag, firstn_all. cbn [firstn].
    rewrite app_nil_r. f_equal.
    replace (p ++ sep ++ join sep (q :: ps))
      with ((p ++ sep) ++ join sep (q :: ps))
      by (rewrite <- app_assoc; reflexivity).
    rewrite <- length_app, skipn_app, Nat.sub_diag, skipn_all.
    cbn [app skipn]. apply IH. exact Hrest.
Qed.

Lemma first_output_part_skips (blanks : list str) (rest : list str) :
  Forall blank blanks ->
  first_output_part (blanks ++ rest) = first_output_part rest.
Proof.
  induction 1 as [| b blanks Hb _ IH]; [reflexivity |].
  cbn [app first_output_part]. apply strip_blank in Hb. rewrite Hb.
  exact IH.
Qed.

Lemma first_output_part_takes (part : str) (rest : list str) :
  strip part <> [] ->
  first_output_part (part :: rest) = Some (first_paragraph (strip part)).
Proof.
  intro H. cbn [first_output_part].
  destruct (strip part); [congruence | reflexivity].
Qed.

Lemma blank_free_of_output (b : str) : blank b -> contains OUTPUT b = false.
Proof.
  destruct output_first as (t & Ht & Hc).
  apply (blank_no_occurrence OUTPUT b _ _ Ht Hc).
Qed.

Lemma take_first_output_absent (r : str) :
  contains OUTPUT r = false -> take_first_output r = r.
Proof. unfold take_first_output. intros ->. reflexivity. Qed.

Lemma take_first_output_parts (p0 : str) (blanks : list str) (part : str)
    (rest : list str) :
  contains OUTPUT p0 = false ->
  Forall blank blanks ->
  contains OUTPUT part = false ->
  strip part <> [] ->
  Forall (fun q => contains OUTPUT q = false) rest ->
  take_first_output (join OUTPUT (p0 :: blanks ++ part :: rest))
  = first_paragraph (strip part).
Proof.
  intros Hp0 Hblanks Hpart Hne Hrest.
  assert (Hfree : Forall (fun q => contains OUTPUT q = false)
                    (p0 :: blanks ++ part :: rest)).
  { constructor; [exact Hp0 |]. apply Forall_app. split.
    - apply (Forall_impl _ blank_free_of_output Hblanks).
    - constructor; assumption. }
  unfold take_first_output.
  rewrite (split_join OUTPUT p0 _ output_not_nil output_border_free Hfree).
  cbn [tl].
  rewrite (first_output_part_skips blanks _ Hblanks).
  rewrite (first_output_part_takes part rest Hne).
  assert (Hocc : contains OUTPUT (join OUTPUT (p0 :: blanks ++ part :: rest))
                 = true).
  { apply contains_true_iff.
    destruct (blanks ++ part :: rest) as [| q qs] eqn:E.
    - destruct blanks; discriminate.
    - exists p0, (join OUTPUT (q :: qs)). reflexivity. }
  rewrite Hocc. reflexivity.
Qed.

(** No section after the marker has visible text: nothing changes. *)
Lemma take_first_output_blank (p0 : str) (blanks : list str) :
  contains OUTPUT p0 = false ->
  Forall blank blanks ->
  take_first_output (join OUTPUT (p0 :: blanks)) = join OUTPUT (p0 :: blanks).
Proof.
  intros Hp0 Hblanks.
  assert (Hfree : Forall (fun q => contains OUTPUT q = false) (p0 :: blanks)).
  { constructor; [exact Hp0 |].
    apply (Forall_impl _ blank_free_of_output Hblanks). }
  unfold take_first_output.
  rewrite (split_join OUTPUT p0 _ output_not_nil output_border_free Hfree).
  cbn [tl].
  rewrite <- (app_nil_r blanks) at 2.
  rewrite (first_output_part_skips blanks [] Hblanks). cbn [first_output_part].
  destruct (contains OUTPUT (join OUTPUT (p0 :: blanks))); reflexivity.
Qed.

(** The first paragraph is the text before the first blank line. *)
Lemma first_paragraph_spec (s : str) :
  contains BLANK_LINE (first_paragraph s) = false
  /\ exists tail, s = first_paragraph s ++ tail
                  /\ (tail = [] \/ starts_with BLANK_LINE tail = true).
Proof.
  split.
  - apply (split_parts_free BLANK_LINE blank_line_not_nil s).
    unfold first_paragraph.
    pose proof (split_not_nil s BLANK_LINE).
    destruct (split s BLANK_LINE); [congruence | left; reflexivity].
  - unfold first_paragraph. rewrite split_eq by exact blank_line_not_nil.
    destruct (find_at BLANK_LINE s 0) as [i |] eqn:E; cbn [hd].
    + exists (skipn i s). split; [symmetry; apply firstn_skipn |].
      right. apply (find_at_Some _ _ _ E).
    + exists []. split; [symmetry; apply app_nil_r | left; reflexivity].
Qed.

(** *** The "Text:" loop: [cut_text_loop] *)

Lemma find_from_start (s sub : str) :
  find s sub 0
  = match find_at sub s 0 with
    | Some i => Z.of_nat i
    | None => (-1)%Z
    end.
Proof. unfold find. destruct s; reflexivity. Qed.

Lemma count_text_twice (r : str) :
  (1 <? count r TEXT) = true <-> twice TEXT r.
Proof. rewrite Nat.ltb_lt. apply count_twice. exact text_not_nil. Qed.

Lemma cut_text_loop_once (r : str) :
  count r TEXT <= 1 -> cut_text_loop r = r.
Proof.
  intro H. unfold cut_text_loop.
  destruct (1 <? count r TEXT) eqn:E; [| reflexivity].
  apply Nat.ltb_lt in E. lia.
Qed.

Lemma cut_text_loop_first (pre rest : str) :
  pre <> [] -> contains TEXT pre = false -> contains TEXT rest = true ->
  cut_text_loop (pre ++ TEXT ++ rest) = strip pre.
Proof.
  intros Hne Hpre Hrest. unfold cut_text_loop.
  assert (Htw : (1 <? count (pre ++ TEXT ++ rest) TEXT) = true).
  { apply count_text_twice. apply contains_true_iff in Hrest.
    destruct Hrest as (b & c & ->). exists pre, b, c. reflexivity. }
  rewrite Htw, find_from_start.
  rewrite (find_at_app_free TEXT pre rest text_border_free Hpre).
  assert (Hpos : (0 <? Z.of_nat (length pre))%Z = true).
  { apply Z.ltb_lt. destruct pre; [congruence | simpl length; lia]. }
  rewrite Hpos. unfold slice_to. rewrite Nat2Z.id.
  rewrite firstn_app, Nat.sub_diag, firstn_all. cbn [firstn].
  rewrite app_nil_r. reflexivity.
Qed.

Lemma cut_text_loop_leading (mid rest : str) :
  contains TEXT mid = false ->
  cut_text_loop (TEXT ++ mid ++ TEXT ++ rest) = strip (TEXT ++ mid).
Proof.
  intros Hmid. unfold cut_text_loop.
  assert (Htw : (1 <? count (TEXT ++ mid ++ TEXT ++ rest) TEXT) = true).
  { apply count_text_twice. exists [], mid, rest. reflexivity. }
  rewrite Htw, find_from_start.
  assert (H0 : find_at TEXT (TEXT ++ mid ++ TEXT ++ rest) 0 = Some 0).
  { apply find_at_first; [apply starts_with_app | lia | lia]. }
  rewrite H0. cbn [Z.of_nat Z.ltb Z.compare Z.eqb].
  assert (H5 : find (TEXT ++ mid ++ TEXT ++ rest) TEXT 5
               = Z.of_nat (5 + length mid)).
  { unfold find.
    assert (Hlen : (length (TEXT ++ mid ++ TEXT ++ rest) <? 5) = false).
    { apply Nat.ltb_ge. rewrite length_app, text_length. lia. }
    rewrite Hlen.
    rewrite <- text_length at 1.
    rewrite skipn_app, Nat.sub_diag, skipn_all. cbn [app skipn].
    rewrite find_at_shift.
    rewrite (find_at_app_free TEXT mid rest text_border_free Hmid).
    reflexivity. }
  rewrite H5.
  assert (Hpos : (0 <? Z.of_nat (5 + length mid))%Z = true)
    by (apply Z.ltb_lt; lia).
  rewrite Hpos. unfold slice_to. rewrite Nat2Z.id.
  rewrite <- text_length.
  replace (TEXT ++ mid ++ TEXT ++ rest) with ((TEXT ++ mid) ++ TEXT ++ rest)
    by (rewrite <- app_assoc; reflexivity).
  rewrite <- length_app.
  rewrite firstn_app, Nat.sub_diag, firstn_all. cbn [firstn].
  rewrite app_nil_r. reflexivity.
Qed.

(** *** What the stages leave behind *)

(** The text before the first occurrence of a marker is free of it. *)
Lemma firstn_find_free (sub s : str) (i : nat) :
  sub <> [] -> find_at sub s 0 = Some i -> ~ occurs sub (firstn i s).
Proof.
  intros Hsub E (a & c & Hac).
  destruct (find_at_Some _ _ _ E) as (_ & Hi & Hmin).
  assert (Hlen : length a + length sub + length c = i).
  { apply (f_equal (@length _)) in Hac.
    rewrite length_firstn, Nat.min_l in Hac by exact Hi.
    rewrite !length_app in Hac. lia. }
  assert (Hsub' : length sub <> 0) by (destruct sub; simpl; congruence).
  assert (Hocc : starts_with sub (skipn (length a) s) = true).
  { apply starts_with_iff.
    rewrite <- (firstn_skipn i s), Hac. rewrite <- !app_assoc.
    rewrite skipn_app, Nat.sub_diag, skipn_all. cbn [app skipn].
    eexists. reflexivity. }
  rewrite Hmin in Hocc by lia. discriminate.
Qed.

(** [cut_text_loop] either changes nothing, on a text without two
    markers, or keeps the stripped text before some marker, in which no
    two markers are left. *)
Lemma cut_text_loop_cases (r : str) :
  (cut_text_loop r = r /\ ~ twice TEXT r)
  \/ (exists k, cut_text_loop r = strip (firstn k r)
                /\ starts_with TEXT (skipn k r) = true
                /\ k <= length r
                /\ ~ twice TEXT (firstn k r)).
Proof.
  unfold cut_text_loop.
  destruct (1 <? count r TEXT) eqn:Etw.
  2:{ left. split; [reflexivity |]. intro H.
      apply count_text_twice in H. congruence. }
  apply count_text_twice in Etw.
  assert (Hcount : 1 < count r TEXT)
    by (apply count_twice; [exact text_not_nil | exact Etw]).
  rewrite find_from_start.
  rewrite count_eq in Hcount by exact text_not_nil.
  destruct (find_at TEXT r 0) as [i |] eqn:Ei; [| lia].
  destruct (find_at_Some _ _ _ Ei) as (Hocc & Hle & Hmin).
  destruct i as [| i].
  - (* the text begins with the marker *)
    cbn [Z.of_nat Z.ltb Z.compare Z.eqb].
    cbn [Nat.add] in Hcount. rewrite text_length in Hcount.
    assert (Hpos : 0 < count (skipn 5 r) TEXT) by lia.
    apply count_positive in Hpos; [| exact text_not_nil].
    apply contains_true_iff in Hpos. unfold contains in Hpos.
    destruct (find_at TEXT (skipn 5 r) 0) as [j |] eqn:Ej;
      [| discriminate].
    destruct (find_at_Some _ _ _ Ej) as (Hoccj & Hlej & Hminj).
    assert (Hlen5 : 5 <= length r).
    { cbn [skipn] in Hocc. apply starts_with_length in Hocc.
      rewrite text_length in Hocc. exact Hocc. }
    rewrite length_skipn in Hlej.
    assert (H5 : find r TEXT 5 = Z.of_nat (5 + j)).
    { unfold find.
      assert (Hl : (length r <? 5) = false) by (apply Nat.ltb_ge; lia).
      rewrite Hl, find_at_shift, Ej. reflexivity. }
    rewrite H5.
    assert (Hp : (0 <? Z.of_nat (5 + j))%Z = true)
      by (apply Z.ltb_lt; lia).
    rewrite Hp. unfold slice_to. rewrite Nat2Z.id.
    right. exists (5 + j). split; [reflexivity |].
    split; [| split; [lia |]].
    + rewrite Nat.add_comm, <- skipn_skipn. exact Hoccj.
    + intros (a & b & c & Habc).
      assert (Hlen : length a + 5 + length b + 5 + length c = 5 + j).
      { apply (f_equal (@length _)) in Habc.
        rewrite length_firstn, Nat.min_l in Habc by lia.
        rewrite !length_app, text_length in Habc. lia. }
      assert (Hsecond :
        starts_with TEXT (skipn (length a + length b) (skipn 5 r)) = true).
      { rewrite skipn_skipn.
        rewrite <- (firstn_skipn (5 + j) r), Habc.
        replace ((a ++ TEXT ++ b ++ TEXT ++ c) ++ skipn (5 + j) r)
          with ((a ++ TEXT ++ b) ++ TEXT ++ c ++ skipn (5 + j) r)
          by (rewrite <- !app_assoc; reflexivity).
        replace (length a + length b + 5) with (length (a ++ TEXT ++ b))
          by (rewrite !length_app, text_length; lia).
        apply occurs_at_app. }
      rewrite Hminj in Hsecond by lia. discriminate.
  - (* the first marker comes after some text *)
    assert (Hp : (0 <? Z.of_nat (S i))%Z = true) by (apply Z.ltb_lt; lia).
    rewrite Hp. unfold slice_to. rewrite Nat2Z.id.
    right. exists (S i). split; [reflexivity |].
    split; [exact Hocc | split; [exact Hle |]].
    intro H. apply twice_occurs in H.
    exact (firstn_find_free TEXT r (S i) text_not_nil Ei H).
Qed.

Lemma first_output_part_Some (parts : list str) (x : str) :
  first_output_part parts = Some x ->
  exists part, In part parts /\ x = first_paragraph (strip part).
Proof.
  induction parts as [| p parts IH]; cbn [first_output_part];
    [discriminate |].
  destruct (strip p) as [| c t] eqn:E.
  - intro H. destruct (IH H) as (part & Hin & Hx).
    exists part. split; [right; exact Hin | exact Hx].
  - intros [= <-]. exists p. split; [left; reflexivity |].
    rewrite E. reflexivity.
Qed.

Lemma first_output_part_None (parts : list str) :
  first_output_part parts = None -> Forall blank parts.
Proof.
  induction parts as [| p parts IH]; cbn [first_output_part];
    [constructor |].
  destruct (strip p) as [| c t] eqn:E; [| discriminate].
  intro H. constructor; [apply strip_blank; exact E | exact (IH H)].
Qed.

Lemma first_paragraph_occurs (sub s : str) :
  occurs sub (first_paragraph s) -> occurs sub s.
Proof.
  destruct (first_paragraph_spec s) as (_ & tail & Hs & _).
  intro H. rewrite Hs.
  apply (occurs_mono sub [] (first_paragraph s) tail) in H. exact H.
Qed.

(** A text whose pieces between the markers are all blank. *)
Lemma blank_tail_of_split (w : str) :
  Forall blank (split w OUTPUT) -> blank_tail w.
Proof.
  remember (length w) as n eqn:Hn. revert w Hn.
  induction n as [n IH] using lt_wf_ind. intros w ->.
  rewrite split_eq by exact output_not_nil.
  destruct (find_at OUTPUT w 0) as [i |] eqn:E.
  - intro H. inversion H as [| ? ? Hb Hrest]. subst.
    rewrite (find_at_split _ _ _ E).
    apply blank_tail_more; [exact Hb |].
    apply (IH _ (find_at_advance _ _ _ output_not_nil E) _ eq_refl Hrest).
  - intro H. inversion H. apply blank_tail_last. assumption.
Qed.

Lemma blank_tail_split (w : str) :
  blank_tail w -> first_output_part (split w OUTPUT) = None.
Proof.
  induction 1 as [b Hb | b w Hb _ IH].
  - rewrite split_eq by exact output_not_nil.
    pose proof (blank_free_of_output b Hb) as Hf.
    apply contains_find_at in Hf. rewrite Hf.
    cbn [first_output_part]. apply strip_blank in Hb. rewrite Hb.
    reflexivity.
  - rewrite split_eq by exact output_not_nil.
    rewrite (find_at_app_free OUTPUT b w output_border_free
               (blank_free_of_output b Hb)).
    rewrite firstn_app, Nat.sub_diag, firstn_all. cbn [firstn].
    rewrite app_nil_r.
    replace (b ++ OUTPUT ++ w) with ((b ++ OUTPUT) ++ w)
      by (rewrite <- app_assoc; reflexivity).
    rewrite <- length_app, skipn_app, Nat.sub_diag, skipn_all.
    cbn [app skipn first_output_part].
    apply strip_blank in Hb. rewrite Hb. exact IH.
Qed.

Lemma blank_tail_rstrip (w : str) : blank_tail w -> blank_tail (rstrip w).
Proof.
  induction 1 as [b Hb | b w Hb _ IH].
  - apply rstrip_blank in Hb. rewrite Hb.
    apply blank_tail_last. constructor.
  - destruct output_last as (t & Ht & Hc).
    replace (rstrip (b ++ OUTPUT ++ w)) with (b ++ OUTPUT ++ rstrip w).
    + apply blank_tail_more; assumption.
    + rewrite Ht.
      assert (E : b ++ (t ++ [58%N : char]) ++ w
                  = (b ++ t) ++ (58%N : char) :: w)
        by (rewrite <- !app_assoc; reflexivity).
      rewrite E, (rstrip_app_nonspace _ _ _ Hc).
      rewrite <- !app_assoc. reflexivity.
Qed.

(** In such a text every character is whitespace or belongs to a
    marker. *)
Lemma blank_tail_chars (w : str) :
  blank_tail w ->
  Forall (fun c => isspace c = true \/ In c OUTPUT) w.
Proof.
  induction 1 as [b Hb | b w Hb _ IH].
  - apply (Forall_impl _ (fun c H => or_introl H) Hb).
  - apply Forall_app. split.
    + apply (Forall_impl _ (fun c H => or_introl H) Hb).
    + apply Forall_app. split; [| exact IH].
      apply Forall_forall. intros c Hc. right. exact Hc.
Qed.

(** [take_first_output] leaves a text without the marker, or leaves its
    argument as it is: text, marker, and then only blanks and markers. *)
Lemma take_first_output_cases (r : str) :
  contains OUTPUT (take_first_output r) = false
  \/ (take_first_output r = r
      /\ exists p0 w, r = p0 ++ OUTPUT ++ w
                      /\ contains OUTPUT p0 = false /\ blank_tail w).
Proof.
  unfold take_first_output.
  destruct (contains OUTPUT r) eqn:Ec; [| left; exact Ec].
  unfold contains in Ec.
  destruct (find_at OUTPUT r 0) as [i |] eqn:Ei; [| discriminate].
  rewrite split_eq by exact output_not_nil. rewrite Ei. cbn [tl].
  set (w := skipn (i + length OUTPUT) r).
  destruct (first_output_part (split w OUTPUT)) as [x |] eqn:Ex.
  - left. apply first_output_part_Some in Ex.
    destruct Ex as (part & Hin & ->).
    apply contains_false_iff. intro H.
    apply first_paragraph_occurs, strip_occurs in H.
    apply contains_true_iff in H.
    rewrite (split_parts_free OUTPUT output_not_nil w part Hin) in H.
    discriminate.
  - right. split; [reflexivity |].
    exists (firstn i r), w. split; [apply find_at_split; exact Ei |].
    split.
    + apply contains_false_iff.
      exact (firstn_find_free OUTPUT r i output_not_nil Ei).
    + apply blank_tail_of_split, first_output_part_None, Ex.
Qed.

Lemma take_first_output_blank_tail (p0 w : str) :
  contains OUTPUT p0 = false -> blank_tail w ->
  take_first_output (p0 ++ OUTPUT ++ w) = p0 ++ OUTPUT ++ w.
Proof.
  intros Hp0 Hw. unfold take_first_output.
  rewrite split_eq by exact output_not_nil.
  rewrite (find_at_app_free OUTPUT p0 w output_border_free Hp0).
  cbn [tl].
  replace (p0 ++ OUTPUT ++ w) with ((p0 ++ OUTPUT) ++ w) at 2
    by (rewrite <- app_assoc; reflexivity).
  rewrite <- length_app, skipn_app, Nat.sub_diag, skipn_all.
  cbn [app skipn]. rewrite (blank_tail_split w Hw).
  destruct (contains OUTPUT (p0 ++ OUTPUT ++ w)); reflexivity.
Qed.

Lemma lstrip_free (sub s : str) :
  contains sub s = false -> contains sub (lstrip s) = false.
Proof.
  rewrite !contains_false_iff. intros H Hl. apply H.
  destruct (lstrip_cut s) as (l & Hs & _). rewrite Hs.
  apply (occurs_mono sub l (lstrip s) []) in Hl.
  rewrite app_nil_r in Hl. exact Hl.
Qed.

(** Stripping such a text gives a text of the same kind. *)
Lemma strip_blank_tail (p0 w : str) :
  strip (p0 ++ OUTPUT ++ w) = lstrip p0 ++ OUTPUT ++ rstrip w.
Proof.
  unfold strip.
  destruct output_first as (t1 & Ht1 & Hc1).
  destruct output_last as (t2 & Ht2 & Hc2).
  assert (E1 : lstrip (p0 ++ OUTPUT ++ w) = lstrip p0 ++ OUTPUT ++ w).
  { rewrite Ht1. cbn [app]. apply lstrip_app_nonspace. exact Hc1. }
  rewrite E1, Ht2.
  assert (E2 : lstrip p0 ++ (t2 ++ [58%N : char]) ++ w
               = (lstrip p0 ++ t2) ++ (58%N : char) :: w)
    by (rewrite <- !app_assoc; reflexivity).
  rewrite E2, (rstrip_app_nonspace _ _ _ Hc2).
  rewrite <- !app_assoc. reflexivity.
Qed.

(** The marker "Text:" cannot begin behind the first "Output:" of such
    a text, so the text before it holds no "Output:". *)
Lemma text_before_output (p0 w : str) (k : nat) :
  contains OUTPUT p0 = false -> blank_tail w ->
  starts_with TEXT (skipn k (p0 ++ OUTPUT ++ w)) = true ->
  contains OUTPUT (firstn k (p0 ++ OUTPUT ++ w)) = false.
Proof.
  intros Hp0 Hw Hk.
  destruct (Nat.le_gt_cases k (length p0)) as [Hle | Hgt].
  - rewrite firstn_app.
    replace (k - length p0) with 0 by lia. cbn [firstn].
    rewrite app_nil_r.
    apply contains_false_iff. intro H. apply occurs_firstn in H.
    apply contains_false_iff in Hp0. exact (Hp0 H).
  - exfalso.
    rewrite skipn_app in Hk.
    rewrite (skipn_all2 p0) in Hk by lia. cbn [app] in Hk.
    assert (Hchars : Forall (fun c => isspace c = true \/ In c OUTPUT)
                       (skipn (k - length p0) (OUTPUT ++ w))).
    { assert (Hall : Forall (fun c => isspace c = true \/ In c OUTPUT)
                       (OUTPUT ++ w)).
      { apply Forall_app. split; [| apply blank_tail_chars; exact Hw].
        apply Forall_forall. intros c Hc. right. exact Hc. }
      rewrite <- (firstn_skipn (k - length p0) (OUTPUT ++ w)) in Hall.
      apply Forall_app in Hall. exact (proj2 Hall). }
    destruct text_first as (t & Ht & Hc).
    rewrite Ht in Hk. apply starts_with_iff in Hk. destruct Hk as [u Hu].
    rewrite Hu in Hchars. cbn [app] in Hchars.
    inversion Hchars as [| ? ? Hhead _].
    destruct Hhead as [Hs | Hin]; [congruence |].
    vm_compute in Hin. intuition discriminate.
Qed.

(** After one pass no stage has anything left to do. *)
Lemma stages_fixed (r1 : str) :
  let y := strip (cut_text_loop (take_first_output r1)) in
  take_first_output y = y /\ cut_text_loop y = y /\ strip y = y.
Proof.
  intro y. subst y.
  set (r2 := take_first_output r1).
  split; [| split].
  - (* the first-section stage *)
    destruct (take_first_output_cases r1) as [Hfree | (Hsame & p0 & w & Hr & Hp0 & Hw)];
      fold r2 in Hfree || fold r2 in Hsame.
    + apply take_first_output_absent, contains_false_iff.
      apply contains_false_iff in Hfree. intro H. apply Hfree.
      apply strip_occurs in H.
      destruct (cut_text_loop_cases r2) as [(E & _) | (k & E & _)];
        rewrite E in H; [exact H |].
      apply strip_occurs, occurs_firstn in H. exact H.
    + destruct (cut_text_loop_cases r2) as [(E & _) | (k & E & Hk & _)];
        rewrite E.
      * rewrite Hsame, Hr, strip_blank_tail.
        apply take_first_output_blank_tail;
          [apply lstrip_free; exact Hp0 | apply blank_tail_rstrip; exact Hw].
      * apply take_first_output_absent, contains_false_iff.
        intro H. apply strip_occurs, strip_occurs in H.
        rewrite Hsame, Hr in Hk, H.
        apply contains_true_iff in H.
        rewrite (text_before_output p0 w k Hp0 Hw Hk) in H. discriminate.
  - (* the loop stage *)
    apply cut_text_loop_once.
    destruct (Nat.le_gt_cases (count (strip (cut_text_loop r2)) TEXT) 1)
      as [Hle | Hgt]; [exact Hle |].
    exfalso. apply count_twice in Hgt; [| exact text_not_nil].
    apply strip_twice in Hgt.
    destruct (cut_text_loop_cases r2) as [(E & Hn) | (k & E & _ & _ & Hn)];
      rewrite E in Hgt; [exact (Hn Hgt) |].
    apply strip_twice in Hgt. exact (Hn Hgt).
  - apply strip_idem.
Qed.

(** *** No stage makes a text longer *)

Lemma re_sub_think_shrinks (s : str) :
  length (re_sub_think s) <= length s
  /\ (length (re_sub_think s) = length s -> re_sub_think s = s).
Proof.
  remember (length s) as n eqn:Hn. revert s Hn.
  induction n as [n IH] using lt_wf_ind. intros s ->.
  destruct s as [| c s']; [split; reflexivity |].
  assert (Hcopy : re_sub_think (c :: s') = c :: re_sub_think s' ->
                  length (re_sub_think (c :: s')) <= length (c :: s')
                  /\ (length (re_sub_think (c :: s')) = length (c :: s') ->
                      re_sub_think (c :: s') = c :: s')).
  { intros ->. cbn [length].
    destruct (IH (length s') (Nat.lt_succ_diag_r _) s' eq_refl) as [H1 H2].
    split; [lia |]. intro H. f_equal. apply H2. lia. }
  destruct (starts_with THINK_OPEN (c :: s')) eqn:Ho;
    [| apply Hcopy, re_sub_think_copy; left; exact Ho].
  destruct (find_at THINK_CLOSE (skipn (length THINK_OPEN) (c :: s')) 0)
    as [k |] eqn:Hc;
    [| apply Hcopy, re_sub_think_copy; right; exact Hc].
  rewrite (re_sub_think_match _ k Ho Hc).
  set (rest := skipn (length THINK_OPEN + k + length THINK_CLOSE) (c :: s')).
  assert (Hlt : length rest < length (c :: s')).
  { unfold rest. rewrite length_skipn, think_open_length. cbn [length]. lia. }
  destruct (IH (length rest) Hlt rest eq_refl) as [H1 _].
  split; lia.
Qed.

Lemma split_parts_length (sep : str) :
  sep <> [] ->
  forall s p, In p (split s sep) -> length p <= length s.
Proof.
  intros Hsep s.
  remember (length s) as n eqn:Hn. revert s Hn.
  induction n as [n IH] using lt_wf_ind. intros s -> p.
  rewrite split_eq by exact Hsep.
  destruct (find_at sep s 0) as [i |] eqn:E.
  - pose proof (find_at_advance _ _ _ Hsep E) as Hlt.
    intros [<- | Hin].
    + rewrite length_firstn. lia.
    + pose proof (IH _ Hlt _ eq_refl p Hin). lia.
  - intros [<- | []]. lia.
Qed.

Lemma first_paragraph_length (s : str) :
  length (first_paragraph s) <= length s.
Proof.
  destruct (first_paragraph_spec s) as (_ & tail & Hs & _).
  rewrite Hs at 2. rewrite length_app. lia.
Qed.

Lemma take_first_output_length (r : str) :
  length (take_first_output r) <= length r.
Proof.
  unfold take_first_output.
  destruct (contains OUTPUT r); [| lia].
  destruct (first_output_part (tl (split r OUTPUT))) as [x |] eqn:Ex;
    [| lia].
  apply first_output_part_Some in Ex. destruct Ex as (part & Hin & ->).
  assert (Hin' : In part (split r OUTPUT)).
  { destruct (split r OUTPUT); [exact Hin | right; exact Hin]. }
  pose proof (split_parts_length OUTPUT output_not_nil r part Hin').
  pose proof (first_paragraph_length (strip part)).
  pose proof (strip_length part). lia.
Qed.

Lemma cut_text_loop_length (r : str) :
  length (cut_text_loop r) <= length r.
Proof.
  destruct (cut_text_loop_cases r) as [(E & _) | (k & E & _)]; rewrite E;
    [lia |].
  pose proof (strip_length (firstn k r)).
  rewrite length_firstn in *. lia.
Qed.

(** A cleaned text that cleaning leaves alone holds no block. *)
Lemma clean_text_fixed_no_block (y : str) :
  clean_text y = y -> re_sub_think y = y.
Proof.
  destruct y as [| d y]; [reflexivity |].
  cbn [clean_text]. intro H.
  apply re_sub_think_shrinks.
  pose proof (proj1 (re_sub_think_shrinks (d :: y))) as H1.
  pose proof (take_first_output_length (re_sub_think (d :: y))) as H2.
  pose proof (cut_text_loop_length
                (take_first_output (re_sub_think (d :: y)))) as H3.
  pose proof (strip_length
                (cut_text_loop
                   (take_first_output (re_sub_think (d :: y))))) as H4.
  rewrite H in H4. lia.
Qed.

(** *** The claims about the cleaner *)



(** C4. Without the marker "Output:" the stage changes nothing.  With
    it, the text is the parts between the markers; of the parts after the
    first marker, those that are blank are skipped and the first one
    with visible text is taken, stripped and cut before its first blank
    line: the result holds no blank line and is followed in the stripped
    part by nothing or by a blank line.  In particular
    "Output: Hello\n\nOutput: World" is cleaned to "Hello". *)
Theorem output_stage_takes_first_section :
  (forall r, contains OUTPUT r = false -> take_first_output r = r)
  /\ (forall p0 blanks part rest,
        contains OUTPUT p0 = false ->
        Forall blank blanks ->
        contains OUTPUT part = false ->
        strip part <> [] ->
        Forall (fun q => contains OUTPUT q = false) rest ->
        take_first_output (join OUTPUT (p0 :: blanks ++ part :: rest))
        = first_paragraph (strip part))
  /\ (forall s,
        contains BLANK_LINE (first_paragraph s) = false
        /\ exists tail, s = first_paragraph s ++ tail
                        /\ (tail = [] \/ starts_with BLANK_LINE tail = true))
  /\ clean_text (py "Output: Hello" ++ BLANK_LINE ++ py "Output: World")
     = py "Hello".
Proof.
  split; [exact take_first_output_absent |].
  split; [exact take_first_output_parts |].
  split; [exact first_paragraph_spec |].
  vm_compute. reflexivity.
Qed.

(** C5. With at most one marker "Text:" the stage changes nothing.
    With more, the stripped text before the first marker is kept when
    that marker is not at the very beginning; when it is, the text is cut
    at the second marker instead, so that the leading marker and what
    follows it up to there is kept, stripped.  In particular
    "Hello world Text: repeated Text: again" is cleaned to
    "Hello world". *)
Theorem text_stage_cuts_loop :
  (forall r, count r TEXT <= 1 -> cut_text_loop r = r)
  /\ (forall r, 1 < count r TEXT <-> twice TEXT r)
  /\ (forall pre rest,
        pre <> [] -> contains TEXT pre = false ->
        contains TEXT rest = true ->
        cut_text_loop (pre ++ TEXT ++ rest) = strip pre)
  /\ (forall mid rest,
        contains TEXT mid = false ->
        cut_text_loop (TEXT ++ mid ++ TEXT ++ rest) = strip (TEXT ++ mid))
  /\ clean_text (py "Hello world Text: repeated Text: again")
     = py "Hello world".
Proof.
  split; [exact cut_text_loop_once |].
  split; [intro r; apply count_twice; exact text_not_nil |].
  split; [exact cut_text_loop_first |].
  split; [exact cut_text_loop_leading |].
  vm_compute. reflexivity.
Qed.

(** C6, counterexample. Removing the inner block of
    "<thi<think>a</think>nk>b</think>c" leaves a text with a block of its
    own, which a second cleaning removes. *)
Lemma clean_twice_differs :
  clean_model_response (Some (py "<thi<think>a</think>nk>b</think>c"))
  = Some (py "<think>b</think>c")
  /\ clean_model_response
       (clean_model_response (Some (py "<thi<think>a</think>nk>b</think>c")))
     = Some (py "c").
Proof. split; vm_compute; reflexivity. Qed.

(** C6, amended. Cleaning a second time changes nothing exactly on the
    inputs whose cleaned text holds no reasoning block any more, that is,
    which the removal of reasoning blocks leaves unchanged. *)
Theorem clean_idempotent_without_block (x : option str) :
  clean_model_response (clean_model_response x) = clean_model_response x
  <-> (forall y, clean_model_response x = Some y -> re_sub_think y = y).
Proof.
  destruct x as [s |]; [| split; [discriminate | reflexivity]].
  cbn [clean_model_response]. split.
  - intros [= H] y [= <-]. apply clean_text_fixed_no_block. exact H.
  - intro H. f_equal. specialize (H _ eq_refl).
    destruct s as [| c s]; [reflexivity |].
    cbn [clean_text] in *.
    set (r1 := re_sub_think (c :: s)) in *.
    destruct (stages_fixed r1) as (Ht & Hc & Hs).
    destruct (strip (cut_text_loop (take_first_output r1))) as [| d y] eqn:Ey;
      [reflexivity |].
    cbn [clean_text]. rewrite H, Ht, Hc, Hs. reflexivity.
Qed.

End CleanerSpec.

(** ** The statements above at concrete requests *)

Module Witnesses.
Import PyStr Cleaner Occ Server Fixtures ServerSpec CleanerSpec.

Lemma generate_after_failed_load :
  existsb load_succeeds
    [ReqUnload (Returns tt); ReqLoad failing_path (Raises boom); ReqStatus]
  = false
  /\ generate_text canned_generate
       (run initial
          [ReqUnload (Returns tt); ReqLoad failing_path (Raises boom);
           ReqStatus])
       hello_request
     = (HTTPException 400 (py "No model loaded. Call /load first."), []).
Proof.
  split; [reflexivity |].
  apply (proj1 (proj2 (generate_without_model_is_precondition_error
                         canned_generate initial
                         [ReqUnload (Returns tt);
                          ReqLoad failing_path (Raises boom); ReqStatus]
                         hello_request))).
  reflexivity.
Defined.

Lemma unload_resident_with_failing_cache :
  is_some (model resident) = true
  /\ unload_model resident (Raises boom)
     = ({| model := None; tokenizer := None; current_model_path := None |},
        OK {| status := py "unloaded"; model_loaded := false;
              model_path := None |},
        [Warning (py "Failed to clear MLX Metal cache: boom")]).
Proof.
  split; [reflexivity |].
  destruct (unload_never_fails resident (Raises boom))
    as (_ & Hloaded & _).
  destruct (Hloaded eq_refl) as (Hfst & _ & Hlog).
  rewrite (surjective_pairing (unload_model resident (Raises boom))).
  rewrite Hfst, (Hlog boom eq_refl). reflexivity.
Defined.


Lemma sampler_of_body_with_top_p :
  parse_generate_request body_with_top_p
  = Some {| prompt := py "Translate: Hello world"; max_tokens := 150%Z;
            temperature := (7 # 10)%Q |}
  /\ make_sampler_call
       {| prompt := py "Translate: Hello world"; max_tokens := 150%Z;
          temperature := (7 # 10)%Q |}
     = fixed_sampler (7 # 10)%Q.
Proof.
  split; [reflexivity |].
  exact (proj1 (sampler_uses_temperature_only canned_generate resident
                  body_with_top_p _ eq_refl)).
Defined.


Lemma takes_second_part :
  take_first_output
    (join OUTPUT [py "x"; py " "; py " Hello"; py " World"])
  = first_paragraph (strip (py " Hello")).
Proof.
  destruct output_stage_takes_first_section as (_ & Hparts & _).
  apply (Hparts (py "x") [py " "] (py " Hello") [py " World"]).
  - reflexivity.
  - repeat constructor.
  - reflexivity.
  - discriminate.
  - repeat constructor.
Defined.

Lemma cuts_before_first_text :
  cut_text_loop (py "Hello world " ++ TEXT ++ py " repeated Text: again")
  = strip (py "Hello world ").
Proof.
  destruct text_stage_cuts_loop as (_ & _ & Hfirst & _).
  apply Hfirst; [discriminate | reflexivity | reflexivity].
Defined.

Lemma clean_twice_hello_world :
  re_sub_think (py "Hello world") = py "Hello world"
  /\ clean_model_response
       (clean_model_response
          (Some (py "Hello world Text: repeated Text: again")))
     = clean_model_response
         (Some (py "Hello world Text: repeated Text: again")).
Proof.
  split; [reflexivity |].
  apply (proj2 (clean_idempotent_without_block
                  (Some (py "Hello world Text: repeated Text: again")))).
  intros y H. injection H as <-. reflexivity.
Defined.

End Witnesses.

(** ** More on the lifecycle of the model slot *)

Module LifecycleSpec.
Import PyStr Cleaner Server Lifecycle Fixtures.

Lemma step_tracks (g : Globals) (p : option str) (r : request) :
  is_some (model g) = is_some p ->
  (forall x, p = Some x -> current_model_path g = Some x) ->
  is_some (model (step g r)) = is_some (track p r)
  /\ (forall x, track p r = Some x ->
                current_model_path (step g r) = Some x).
Proof.
  intros Hm Hp.
  destruct r as [| lr [[m t] | e] | gen gr | cleared]; cbn [step track].
  - split; assumption.
  - cbn. split; [reflexivity | intros x [= <-]; reflexivity].
  - unfold load_model. cbn [fst].
    destruct (model g) eqn:E; cbn; [| rewrite E];
      (split; [reflexivity | discriminate]).
  - split; assumption.
  - unfold unload_model.
    destruct (model g) eqn:E; cbn; [| rewrite E];
      (split; [reflexivity | discriminate]).
Qed.

Lemma run_tracks (rs : list request) :
  forall g p,
    is_some (model g) = is_some p ->
    (forall x, p = Some x -> current_model_path g = Some x) ->
    is_some (model (run g rs)) = is_some (fold_left track rs p)
    /\ (forall x, fold_left track rs p = Some x ->
                  current_model_path (run g rs) = Some x).
Proof.
  unfold run. induction rs as [| r rs IH]; intros g p Hm Hp; cbn [fold_left].
  - split; assumption.
  - destruct (step_tracks g p r Hm Hp) as [Hm' Hp']. apply IH; assumption.
Qed.

(** X1. Status reports [model_loaded] true exactly when the last load or
    unload request was a load that succeeded, and then [model_path] is
    the path of that load. *)
Theorem status_shows_last_successful_load (rs : list request) :
  model_loaded (get_status (run initial rs)) = is_some (resident_path rs)
  /\ (forall p, resident_path rs = Some p ->
                model_path (get_status (run initial rs)) = Some p).
Proof.
  apply (run_tracks rs initial None); [reflexivity | discriminate].
Qed.

(** X2. A second unload in a row reports "no_model_loaded", changes
    nothing and logs nothing, whatever the first one did. *)
Theorem unload_twice (g : Globals) (c1 c2 : outcome unit) :
  unload_model (fst (fst (unload_model g c1))) c2
  = (fst (fst (unload_model g c1)),
     OK {| status := py "no_model_loaded"; model_loaded := false;
           model_path := None |},
     []).
Proof.
  unfold unload_model at 2 3.
  destruct (model g) eqn:E; cbn [fst].
  - reflexivity.
  - unfold unload_model. rewrite E. reflexivity.
Qed.

Lemma step_without_model (g : Globals) (r : request) :
  model g = None -> is_load r = false -> step g r = g.
Proof.
  intros Hm Hr.
  destruct r as [| lr l | gen gr | cleared]; cbn [step];
    try reflexivity; [discriminate |].
  unfold unload_model. rewrite Hm. reflexivity.
Qed.

Lemma run_without_model (rs : list request) (g : Globals) :
  model g = None -> existsb is_load rs = false -> run g rs = g.
Proof.
  unfold run. intros Hm. induction rs as [| r rs IH]; cbn; [reflexivity |].
  intro H. apply orb_false_elim in H. destruct H as [Hr Hrs].
  rewrite (step_without_model g r Hm Hr). exact (IH Hrs).
Qed.

(** X3. The path left behind by a failed reload is cleared by nothing
    but a later load: after it, any status, generate and unload requests,
    and the shutdown, leave status at [model_loaded] false with the path
    of the model that was resident before. *)
Theorem stale_path_survives_unload (g : Globals) (p : str)
    (r : LoadRequest) (e : exn) (rs : list request) :
  is_some (model g) = true ->
  current_model_path g = Some p ->
  existsb is_load rs = false ->
  get_status (shutdown (run (fst (load_model g r (Raises e))) rs))
  = {| status := py "running"; model_loaded := false;
       model_path := Some p |}.
Proof.
  intros Hm Hp Hrs.
  assert (Hg : fst (load_model g r (Raises e))
               = {| model := None; tokenizer := None;
                    current_model_path := Some p |}).
  { unfold load_model. destruct (model g); [| discriminate].
    cbn. rewrite Hp. reflexivity. }
  rewrite Hg.
  rewrite (run_without_model rs
             {| model := None; tokenizer := None;
                current_model_path := Some p |} eq_refl Hrs).
  reflexivity.
Qed.

(** X4. After the shutdown that follows any sequence of requests no model
    is resident: handle and tokenizer are both unset, and no path is
    recorded unless it is the path left behind by a failed reload. *)
Theorem shutdown_leaves_no_model (rs : list request) :
  model (shutdown (run initial rs)) = None
  /\ tokenizer (shutdown (run initial rs)) = None
  /\ (is_some (model (run initial rs)) = true ->
      shutdown (run initial rs) = initial).
Proof.
  pose proof (ServerSpec.run_paired rs initial eq_refl) as Hp.
  unfold paired in Hp. unfold shutdown.
  destruct (model (run initial rs)) eqn:Em; cbn.
  - repeat split.
  - rewrite Em. cbn in Hp.
    destruct (tokenizer (run initial rs)); [discriminate |].
    repeat split. discriminate.
Qed.

End LifecycleSpec.

(** ** More on the cleaning block *)

Module CleanerMore.
Import PyStr Cleaner Occ Blocks PyStrFacts CleanerSpec.

Lemma think_open_not_nil : THINK_OPEN <> [].
Proof. discriminate. Qed.

Lemma think_close_not_nil : THINK_CLOSE <> [].
Proof. discriminate. Qed.

Lemma occurs_skipn (sub s : str) (n : nat) :
  occurs sub (skipn n s) -> occurs sub s.
Proof.
  intro H. rewrite <- (firstn_skipn n s).
  apply (occurs_mono sub (firstn n s) (skipn n s) []) in H.
  rewrite app_nil_r in H. exact H.
Qed.

(** [has_block] decides whether some opening marker is followed by a
    closing one. *)
Lemma has_block_false_iff (s : str) :
  has_block s = false
  <-> (forall a b, s = a ++ THINK_OPEN ++ b -> contains THINK_CLOSE b = false).
Proof.
  unfold has_block. split.
  - destruct (find_at THINK_OPEN s 0) as [i |] eqn:Ei.
    + intros Hc a b Hs.
      destruct (find_at_Some _ _ _ Ei) as (_ & _ & Hmin).
      assert (Hle : i <= length a).
      { destruct (Nat.le_gt_cases i (length a)) as [H | H]; [exact H |].
        pose proof (Hmin _ H) as Hf. rewrite Hs, occurs_at_app in Hf.
        discriminate. }
      apply contains_false_iff. intro Hb.
      apply contains_false_iff in Hc. apply Hc.
      assert (Eb : b = skipn (length a - i) (skipn (i + length THINK_OPEN) s)).
      { rewrite skipn_skipn.
        replace (length a - i + (i + length THINK_OPEN))
          with (length (a ++ THINK_OPEN)) by (rewrite length_app; lia).
        rewrite Hs, app_assoc, skipn_app, Nat.sub_diag, skipn_all.
        reflexivity. }
      rewrite Eb in Hb. apply occurs_skipn in Hb. exact Hb.
    + intros _ a b Hs. exfalso.
      pose proof (find_at_None _ _ Ei (length a)) as Hf.
      rewrite Hs, occurs_at_app in Hf. discriminate.
  - intro H. destruct (find_at THINK_OPEN s 0) as [i |] eqn:Ei;
      [| reflexivity].
    apply (H (firstn i s)). apply find_at_split. exact Ei.
Qed.

Lemma has_block_shrinks (s : str) :
  has_block s = true -> length (re_sub_think s) < length s.
Proof.
  unfold has_block.
  destruct (find_at THINK_OPEN s 0) as [i |] eqn:Ei; [| discriminate].
  unfold contains.
  destruct (find_at THINK_CLOSE (skipn (i + length THINK_OPEN) s) 0)
    as [j |] eqn:Ej; [| discriminate].
  intros _.
  set (rest := skipn (i + length THINK_OPEN) s) in *.
  assert (Hs : s = firstn i s ++ THINK_OPEN ++ firstn j rest
                   ++ THINK_CLOSE ++ skipn (j + length THINK_CLOSE) rest).
  { rewrite <- (find_at_split _ _ _ Ej). apply find_at_split. exact Ei. }
  assert (Hpre : contains THINK_OPEN (firstn i s) = false).
  { apply contains_false_iff.
    exact (firstn_find_free _ _ _ think_open_not_nil Ei). }
  assert (Hbody : contains THINK_CLOSE (firstn j rest) = false).
  { apply contains_false_iff.
    exact (firstn_find_free _ _ _ think_close_not_nil Ej). }
  rewrite Hs at 1.
  rewrite (re_sub_think_block _ _ _ Hpre Hbody).
  pose proof (proj1 (re_sub_think_shrinks
                       (skipn (j + length THINK_CLOSE) rest))) as Hle.
  apply (f_equal (@length _)) in Hs.
  rewrite !length_app, think_open_length in Hs.
  rewrite length_app. lia.
Qed.

(** X5. Removing reasoning blocks changes a text exactly when it holds a
    block, an opening marker with a closing marker somewhere behind it;
    and then the text gets shorter. *)
Theorem re_sub_think_fixed_iff (s : str) :
  (re_sub_think s = s <-> has_block s = false)
  /\ (has_block s = true -> length (re_sub_think s) < length s).
Proof.
  split; [| exact (has_block_shrinks s)]. split.
  - intro H. destruct (has_block s) eqn:E; [| reflexivity].
    apply has_block_shrinks in E. rewrite H in E. lia.
  - intro H. apply re_sub_think_no_block, has_block_false_iff, H.
Qed.

Lemma clean_text_stages (c : char) (s : str) :
  clean_text (c :: s)
  = strip (cut_text_loop (take_first_output (re_sub_think (c :: s)))).
Proof. reflexivity. Qed.

Lemma clean_text_strip_fixed (s : str) : strip (clean_text s) = clean_text s.
Proof.
  destruct s as [| c s]; [reflexivity |].
  rewrite clean_text_stages. apply strip_idem.
Qed.

Lemma strip_head (s : str) (c : char) (t : str) :
  strip s = c :: t -> isspace c = false.
Proof.
  unfold strip. destruct (lstrip s) as [| d u] eqn:E; [discriminate |].
  apply lstrip_head in E.
  pose proof (rstrip_app_nonspace [] d u E) as H. cbn [app] in H.
  rewrite H. intros [= <- _]. exact E.
Qed.

Lemma strip_last (s t : str) (c : char) :
  strip s = t ++ [c] -> isspace c = false.
Proof.
  unfold strip, rstrip. intro H.
  apply (f_equal (@rev _)) in H.
  rewrite rev_involutive, rev_app_distr in H. cbn [rev app] in H.
  exact (lstrip_head _ _ _ H).
Qed.

(** X6. The cleaned text neither begins nor ends with whitespace:
    stripping it again changes nothing, and its first and its last
    character are no whitespace. *)
Theorem clean_text_stripped (s : str) :
  strip (clean_text s) = clean_text s
  /\ (forall c t, clean_text s = c :: t -> isspace c = false)
  /\ (forall t c, clean_text s = t ++ [c] -> isspace c = false).
Proof.
  split; [exact (clean_text_strip_fixed s) |].
  destruct s as [| c0 s0].
  - split; [discriminate |].
    intros t c E. destruct t; discriminate.
  - rewrite clean_text_stages. split.
    + intros c t. apply strip_head.
    + intros t c. apply strip_last.
Qed.

(** X7. Cleaning never makes a text longer. *)
Theorem clean_text_not_longer (s : str) : length (clean_text s) <= length s.
Proof.
  destruct s as [| c s]; [reflexivity |].
  rewrite clean_text_stages.
  pose proof (proj1 (re_sub_think_shrinks (c :: s))) as H1.
  pose proof (take_first_output_length (re_sub_think (c :: s))) as H2.
  pose proof (cut_text_loop_length
                (take_first_output (re_sub_think (c :: s)))) as H3.
  pose proof (strip_length
                (cut_text_loop
                   (take_first_output (re_sub_think (c :: s))))) as H4.
  lia.
Qed.

Lemma cut_stage_not_twice (r : str) : ~ twice TEXT (strip (cut_text_loop r)).
Proof.
  intro H. apply strip_twice in H.
  destruct (cut_text_loop_cases r) as [(E & Hn) | (k & E & _ & _ & Hn)];
    rewrite E in H; [exact (Hn H) |].
  apply strip_twice in H. exact (Hn H).
Qed.

Lemma clean_text_text_count (s : str) : count (clean_text s) TEXT <= 1.
Proof.
  destruct (Nat.le_gt_cases (count (clean_text s) TEXT) 1) as [H | H];
    [exact H |].
  exfalso. apply count_twice in H; [| exact text_not_nil].
  destruct s as [| c s].
  - destruct H as (a & b & d & H). destruct a; discriminate.
  - rewrite clean_text_stages in H. exact (cut_stage_not_twice _ H).
Qed.

(** X8. The cleaned text holds the marker "Text:" at most once: it
    cannot be written with two of them. *)
Theorem clean_text_one_text_marker (s : str) :
  count (clean_text s) TEXT <= 1
  /\ (forall a b c, clean_text s <> a ++ TEXT ++ b ++ TEXT ++ c).
Proof.
  pose proof (clean_text_text_count s) as H. split; [exact H |].
  intros a b c E.
  assert (Ht : twice TEXT (clean_text s)) by (exists a, b, c; exact E).
  apply count_twice in Ht; [lia | exact text_not_nil].
Qed.

(** X9. A text without a reasoning block, without the marker "Output:"
    and with at most one "Text:" is only stripped. *)
Theorem clean_text_only_strips (s : str) :
  has_block s = false ->
  contains OUTPUT s = false ->
  count s TEXT <= 1 ->
  clean_text s = strip s.
Proof.
  intros Hb Ho Ht.
  destruct s as [| c s]; [reflexivity |].
  rewrite clean_text_stages.
  rewrite (re_sub_think_no_block _ (proj1 (has_block_false_iff _) Hb)).
  rewrite (take_first_output_absent _ Ho), (cut_text_loop_once _ Ht).
  reflexivity.
Qed.

Lemma blank_free_of (sub s : str) (c : char) (t : str) :
  sub = c :: t -> isspace c = false -> blank s -> ~ occurs sub s.
Proof.
  intros Hsub Hc Hs. apply contains_false_iff.
  exact (blank_no_occurrence sub s c t Hsub Hc Hs).
Qed.

(** X10. A text of whitespace only is cleaned to the empty text. *)
Theorem clean_text_of_blank (s : str) : blank s -> clean_text s = [].
Proof.
  intro Hs.
  assert (Hopen : contains THINK_OPEN s = false).
  { apply (blank_no_occurrence THINK_OPEN s 60%N (tl THINK_OPEN));
      [reflexivity | reflexivity | exact Hs]. }
  assert (Hb : has_block s = false).
  { unfold has_block. apply contains_find_at in Hopen. rewrite Hopen.
    reflexivity. }
  assert (Ht : count s TEXT <= 1).
  { destruct (Nat.le_gt_cases (count s TEXT) 1) as [H | H]; [exact H |].
    exfalso. apply count_twice in H; [| exact text_not_nil].
    apply twice_occurs in H. destruct text_first as (t & Et & Hc).
    exact (blank_free_of TEXT s _ _ Et Hc Hs H). }
  destruct s as [| c s]; [reflexivity |].
  rewrite clean_text_stages.
  rewrite (re_sub_think_no_block _ (proj1 (has_block_false_iff _) Hb)).
  rewrite (take_first_output_absent _ (blank_free_of_output _ Hs)).
  rewrite (cut_text_loop_once _ Ht).
  apply strip_blank. exact Hs.
Qed.

(** X11. What stands inside a reasoning block has no influence on the
    cleaned text: two raw texts that differ only inside their first block
    are cleaned to the same text. *)
Theorem block_content_is_ignored (pre body1 body2 post : str) :
  contains THINK_OPEN pre = false ->
  contains THINK_CLOSE body1 = false ->
  contains THINK_CLOSE body2 = false ->
  clean_text (pre ++ THINK_OPEN ++ body1 ++ THINK_CLOSE ++ post)
  = clean_text (pre ++ THINK_OPEN ++ body2 ++ THINK_CLOSE ++ post).
Proof.
  intros Hpre H1 H2.
  assert (Hne : forall body,
            exists c t, pre ++ THINK_OPEN ++ body ++ THINK_CLOSE ++ post
                        = c :: t).
  { intro body. destruct pre as [| c pre]; cbn [app].
    - eexists. eexists. reflexivity.
    - eexists. eexists. reflexivity. }
  destruct (Hne body1) as (c1 & t1 & E1).
  destruct (Hne body2) as (c2 & t2 & E2).
  rewrite E1, E2, !clean_text_stages, <- E1, <- E2.
  rewrite (re_sub_think_block _ _ _ Hpre H1).
  rewrite (re_sub_think_block _ _ _ Hpre H2).
  reflexivity.
Qed.

(** X12. If the cleaned text still shows the marker "Output:", no answer
    follows it: behind its first occurrence there is nothing but
    whitespace and further markers. *)
Theorem clean_text_output_marker_left (s : str) :
  contains OUTPUT (clean_text s) = true ->
  exists p w, clean_text s = p ++ OUTPUT ++ w
              /\ contains OUTPUT p = false /\ blank_tail w.
Proof.
  destruct s as [| c s]; [discriminate |].
  rewrite clean_text_stages.
  set (r1 := re_sub_think (c :: s)).
  set (r2 := take_first_output r1).
  intro Hy.
  destruct (take_first_output_cases r1)
    as [Hfree | (Hsame & p0 & w & Hr & Hp0 & Hw)];
    fold r2 in Hfree || fold r2 in Hsame.
  - exfalso. apply contains_true_iff in Hy. apply strip_occurs in Hy.
    apply contains_false_iff in Hfree. apply Hfree.
    destruct (cut_text_loop_cases r2) as [(E & _) | (k & E & _)];
      rewrite E in Hy; [exact Hy |].
    apply strip_occurs, occurs_firstn in Hy. exact Hy.
  - destruct (cut_text_loop_cases r2) as [(E & _) | (k & E & Hk & _)];
      rewrite E in Hy |- *.
    + rewrite Hsame, Hr, strip_blank_tail.
      exists (lstrip p0), (rstrip w).
      split; [reflexivity |].
      split; [apply lstrip_free; exact Hp0 | apply blank_tail_rstrip; exact Hw].
    + exfalso. apply contains_true_iff in Hy.
      apply strip_occurs, strip_occurs in Hy.
      rewrite Hsame, Hr in Hk, Hy. apply contains_true_iff in Hy.
      rewrite (text_before_output p0 w k Hp0 Hw Hk) in Hy. discriminate.
Qed.

End CleanerMore.

(** ** More on [generate_text] *)

Module GenerateSpec.
Import PyStr Cleaner Occ Server Lifecycle PyStrFacts CleanerSpec.

(** Case analysis on everything the handler branches on. *)
Ltac branch :=
  repeat match goal with
         | |- context [match ?x with _ => _ end] => destruct x eqn:?
         end.

Ltac branch_in H :=
  repeat match type of H with
         | context [match ?x with _ => _ end] => destruct x eqn:?
         end.

(** X13. With a model resident [generate_text] never answers 400: it
    answers 200, or the 500 "Generation failed: " with the message of
    what was raised.  When the chat template raises, the generator is not
    called; when the generator raises, its message is the one
    reported. *)
Theorem generate_resident_outcome (generate : generate_fn) (g : Globals)
    (r : GenerateRequest) (m : Model) (t : Tokenizer) :
  model g = Some m -> tokenizer g = Some t ->
  ((exists body, fst (generate_text generate g r) = OK body)
   \/ (exists e, fst (generate_text generate g r) = generation_failed e))
  /\ (forall e,
        fst (format_prompt t [(py "user", prompt r)]) = Raises e ->
        generate_text generate g r
        = (generation_failed e,
           snd (format_prompt t [(py "user", prompt r)])))
  /\ (forall fp e,
        fst (format_prompt t [(py "user", prompt r)]) = Returns fp ->
        generate m t fp (max_tokens r) (make_sampler_call r)
          make_logits_processors_call = Raises e ->
        fst (generate_text generate g r) = generation_failed e).
Proof.
  intros Hm Ht. unfold generate_text. rewrite Hm, Ht.
  destruct (format_prompt t [(py "user", prompt r)]) as [[fp | e] calls1];
    cbn [fst snd].
  - split; [| split; [discriminate |]].
    + branch; cbn [fst]; eauto.
    + intros fp' e' [= <-] He. rewrite He. reflexivity.
  - split; [right; eauto | split; [| discriminate]].
    intros e' [= <-]. reflexivity.
Qed.

Lemma generate_text_ok (generate : generate_fn) (g : Globals)
    (r : GenerateRequest) (body : GenerateResponse) :
  fst (generate_text generate g r) = OK body ->
  exists m t fp raw,
    model g = Some m /\ tokenizer g = Some t
    /\ fst (format_prompt t [(py "user", prompt r)]) = Returns fp
    /\ generate m t fp (max_tokens r) (make_sampler_call r)
         make_logits_processors_call = Returns raw
    /\ response body = clean_text raw
    /\ (clean_text raw = [] -> tokens_generated body = 0)
    /\ (clean_text raw <> [] ->
        exists ids, encode t (clean_text raw) = Returns ids
                    /\ tokens_generated body = length ids).
Proof.
  unfold generate_text.
  destruct (model g) as [m |]; [| discriminate].
  destruct (tokenizer g) as [t |]; [| discriminate].
  destruct (format_prompt t [(py "user", prompt r)])
    as [[fp | e] calls1] eqn:Ef; [| discriminate].
  destruct (generate m t fp (max_tokens r) (make_sampler_call r)
              make_logits_processors_call) as [raw | e] eqn:Eg;
    [| discriminate].
  destruct (clean_text raw) as [| c cleaned] eqn:Ec.
  - intros [= <-]. exists m, t, fp, raw. rewrite Ef, Eg, Ec.
    do 5 (split; [reflexivity |]).
    split; [reflexivity | intro Hne; exfalso; apply Hne; reflexivity].
  - destruct (encode t (c :: cleaned)) as [ids | e] eqn:Ee; [| discriminate].
    intros [= <-]. exists m, t, fp, raw. rewrite Ef, Eg, Ec.
    do 5 (split; [reflexivity |]).
    split; [discriminate |].
    intros _. exists ids. split; [exact Ee | reflexivity].
Qed.

(** X14. The text of every 200 answer is the cleaned output of the
    generator: it neither begins nor ends with whitespace, holds "Text:"
    at most once, and is counted by encoding it again; an empty text is
    reported with 0 tokens. *)
Theorem generate_ok_response (generate : generate_fn) (g : Globals)
    (r : GenerateRequest) (body : GenerateResponse) :
  fst (generate_text generate g r) = OK body ->
  strip (response body) = response body
  /\ count (response body) TEXT <= 1
  /\ (response body = [] -> tokens_generated body = 0)
  /\ (response body <> [] ->
      exists t ids, tokenizer g = Some t
                    /\ encode t (response body) = Returns ids
                    /\ tokens_generated body = length ids).
Proof.
  intro H. apply generate_text_ok in H.
  destruct H as (m & t & fp & raw & _ & Ht & _ & _ & Hr & H0 & Hids).
  rewrite Hr.
  split; [apply CleanerMore.clean_text_strip_fixed |].
  split; [apply CleanerMore.clean_text_text_count |].
  split; [exact H0 |].
  intro Hne. destruct (Hids Hne) as (ids & He & Hl).
  exists t, ids. auto.
Qed.





End GenerateSpec.

(** ** The scripts against the server *)

Module ScriptsSpec.
Import PyStr Cleaner Occ Server Scripts PyStrFacts.

(** X17. When [ensure_model_loaded] returns true, the server has a model
    resident.  When a model is resident already and the status request is
    answered, it returns true and sends no load request: the globals stay
    as they are, whichever model that is.  When both requests are
    answered and it returns false, no model is resident. *)
Theorem ensure_model_loaded_spec (g : Globals) (status_answered : bool)
    (d : delivery) (loaded : outcome (Model * Tokenizer)) :
  (snd (ensure_model_loaded g status_answered d loaded) = true ->
   model_loaded
     (get_status (fst (ensure_model_loaded g status_answered d loaded)))
   = true)
  /\ (model_loaded (get_status g) = true -> status_answered = true ->
      ensure_model_loaded g status_answered d loaded = (g, true))
  /\ (status_answered = true -> d = Answered ->
      snd (ensure_model_loaded g status_answered d loaded) = false ->
      model_loaded
        (get_status (fst (ensure_model_loaded g status_answered d loaded)))
      = false).
Proof.
  split; [| split].
  - unfold ensure_model_loaded.
    destruct status_answered; [| discriminate].
    destruct (model_loaded (get_status g)) eqn:E; [intros _; exact E |].
    destruct d; cbn [fst snd]; try discriminate.
    destruct loaded as [[m t] | e]; cbn; [reflexivity | discriminate].
  - intros Hl ->. unfold ensure_model_loaded. rewrite Hl. reflexivity.
  - intros -> ->. unfold ensure_model_loaded.
    destruct (model_loaded (get_status g)) eqn:E; [discriminate |].
    destruct loaded as [[m t] | e]; cbn; [discriminate |]. intros _.
    cbn in E. destruct (model g) eqn:Em; [discriminate |].
    cbn. rewrite Em. reflexivity.
Qed.

Lemma str_eqb_eq (a b : str) : str_eqb a b = true <-> a = b.
Proof.
  revert b. induction a as [| x a IH]; intros [| y b]; cbn [str_eqb].
  - split; reflexivity.
  - split; discriminate.
  - split; discriminate.
  - rewrite andb_true_iff, char_eqb_eq, IH. split.
    + intros [-> ->]. reflexivity.
    + intros [= -> ->]. split; reflexivity.
Qed.

Lemma contains_refl (s : str) : contains s s = true.
Proof.
  apply contains_true_iff. exists [], []. rewrite app_nil_r. reflexivity.
Qed.

(** X18. The verdict of the benchmark on a run is containment alone: a
    run passes exactly when the normalized expected text occurs in the
    normalized result.  Neither the test for an exact match nor the
    distinction of the cases that expect no correction changes it. *)
Theorem passed_is_containment (lower : str -> str)
    (result expected selected : str) :
  passed lower result expected selected
  = contains (normalize lower expected) (normalize lower result).
Proof.
  unfold passed.
  destruct (str_eqb expected selected); [reflexivity |].
  destruct (str_eqb (normalize lower result) (normalize lower expected))
    eqn:E; [| reflexivity].
  apply str_eqb_eq in E. rewrite E, contains_refl. reflexivity.
Qed.

Lemma fence_not_nil : FENCE <> [].
Proof. discriminate. Qed.

Lemma fence_json_not_nil : FENCE_JSON <> [].
Proof. discriminate. Qed.

(** Where the separator occurs, the split has a second part. *)
Lemma split_second_part (s sep : str) :
  sep <> [] -> contains sep s = true ->
  exists p, part (split s sep) 1 = Some p /\ In p (split s sep).
Proof.
  intros Hsep Hc. unfold contains in Hc.
  rewrite split_eq by exact Hsep.
  destruct (find_at sep s 0) as [i |]; [| discriminate].
  pose proof (split_not_nil (skipn (i + length sep) s) sep) as Hne.
  destruct (split (skipn (i + length sep) s) sep) as [| p ps];
    [congruence |].
  exists p. split; [reflexivity | right; left; reflexivity].
Qed.

Lemma split_first_part (s sep : str) :
  sep <> [] ->
  exists q, part (split s sep) 0 = Some q /\ contains sep q = false.
Proof.
  intro Hsep.
  pose proof (split_not_nil s sep) as Hne.
  pose proof (split_parts_free sep Hsep s) as Hfree.
  destruct (split s sep) as [| q qs]; [congruence |].
  exists q. split; [reflexivity | apply Hfree; left; reflexivity].
Qed.

Lemma strip_free (sub s : str) :
  contains sub s = false -> contains sub (strip s) = false.
Proof.
  rewrite !contains_false_iff. intros H Hs. apply H, strip_occurs, Hs.
Qed.

(** X19. Taking the text between the fences never fails with an
    [IndexError], and the text it hands to the JSON parser holds no
    fence. *)
Theorem fenced_json_total (cleaned : str) :
  exists j, fenced_json cleaned = Some j /\ contains FENCE j = false.
Proof.
  unfold fenced_json.
  destruct (contains FENCE_JSON cleaned) eqn:Ej.
  - destruct (split_second_part _ _ fence_json_not_nil Ej) as (p & Hp & _).
    rewrite Hp.
    destruct (split_first_part p FENCE fence_not_nil) as (q & Hq & Hfree).
    rewrite Hq. exists (strip q). split; [reflexivity |].
    apply strip_free, Hfree.
  - destruct (contains FENCE cleaned) eqn:Ef.
    + destruct (split_second_part _ _ fence_not_nil Ef) as (p & Hp & _).
      rewrite Hp.
      destruct (split_first_part p FENCE fence_not_nil) as (q & Hq & Hfree).
      rewrite Hq. exists (strip q). split; [reflexivity |].
      apply strip_free, Hfree.
    + exists cleaned. split; [reflexivity | exact Ef].
Qed.

End ScriptsSpec.

(** ** Building the prompt *)

Module PromptSpec.
Import PyStr Occ Prompt PyStrFacts.

(** *** Escaping *)

Lemma hex_digit_range (d : N) :
  (d < 16)%N ->
  (48 <= hex_digit d <= 57)%N \/ (97 <= hex_digit d <= 102)%N.
Proof.
  intro H. unfold hex_digit. destruct (d <? 10)%N eqn:E.
  - apply N.ltb_lt in E. left. lia.
  - apply N.ltb_ge in E. right. lia.
Qed.

Lemma hex4_digits (n : N) (c : char) :
  In c (hex4 n) -> (48 <= c <= 57)%N \/ (97 <= c <= 102)%N.
Proof.
  unfold hex4. intro H.
  repeat (destruct H as [<- | H];
          [apply hex_digit_range, N.mod_lt; discriminate |]).
  contradiction.
Qed.

Lemma u_escape_chars (n : N) (c : char) :
  In c (u_escape n) ->
  c = 92%N \/ c = 117%N \/ (48 <= c <= 57)%N \/ (97 <= c <= 102)%N.
Proof.
  unfold u_escape. intros [<- | [<- | H]]; [auto | auto |].
  right. right. exact (hex4_digits n c H).
Qed.

(** Every character written for [c] is [c] itself, printable, or one of
    the characters of an escape: backslash, quote, letters, digits. *)
Lemma escape_char_chars (c d : char) :
  In d (escape_char c) ->
  (d = c /\ printable c = true /\ c <> 34%N /\ c <> 92%N)
  \/ d = 92%N \/ d = 34%N \/ (48 <= d <= 57)%N \/ (97 <= d <= 122)%N.
Proof.
  unfold escape_char, printable.
  destruct (c =? 34)%N eqn:E34;
    [intros [<- | [<- | []]]; auto |].
  destruct (c =? 92)%N eqn:E92;
    [intros [<- | [<- | []]]; auto |].
  destruct (c =? 10)%N;
    [intros [<- | [<- | []]]; [auto | right; right; right; right; lia] |].
  destruct (c =? 13)%N;
    [intros [<- | [<- | []]]; [auto | right; right; right; right; lia] |].
  destruct (c =? 9)%N;
    [intros [<- | [<- | []]]; [auto | right; right; right; right; lia] |].
  destruct (c =? 8)%N;
    [intros [<- | [<- | []]]; [auto | right; right; right; right; lia] |].
  destruct (c =? 12)%N;
    [intros [<- | [<- | []]]; [auto | right; right; right; right; lia] |].
  apply N.eqb_neq in E34, E92.
  destruct ((32 <=? c) && (c <=? 126))%N eqn:Ep.
  - intros [<- | []]. left. auto.
  - assert (Hu : forall n, In d (u_escape n) ->
                  d = 92%N \/ d = 34%N \/ (48 <= d <= 57)%N
                  \/ (97 <= d <= 122)%N).
    { intros n H. apply u_escape_chars in H.
      destruct H as [H | [H | [H | H]]]; [auto | | auto |];
        right; right; right; lia. }
    destruct (c <? 65536)%N.
    + intro H. right. exact (Hu _ H).
    + cbv zeta. intro H. apply in_app_or in H.
      destruct H as [H | H]; right; exact (Hu _ H).
Qed.

Lemma escape_char_plain (c : char) : plain c = true -> escape_char c = [c].
Proof.
  unfold plain, escape_char. intro H.
  apply andb_true_iff in H. destruct H as [H H92].
  apply andb_true_iff in H. destruct H as [H H34].
  apply negb_true_iff in H34, H92. rewrite H34, H92.
  pose proof H as Hr. apply andb_true_iff in Hr. destruct Hr as [Hlo Hhi].
  apply N.leb_le in Hlo.
  assert (E : forall k, (k < 32)%N -> (c =? k)%N = false)
    by (intros k Hk; apply N.eqb_neq; lia).
  rewrite (E 10%N), (E 13%N), (E 9%N), (E 8%N), (E 12%N) by reflexivity.
  rewrite H. reflexivity.
Qed.

(** X20. What [json_escape_content] returns is printable ASCII
    throughout, so it holds no line feed and no other control character;
    a dollar sign occurs in it only where the text had one; and a text of
    printable ASCII without quote and backslash is returned as it is. *)
Theorem json_escape_content_ascii (s : str) :
  Forall (fun c => printable c = true) (json_escape_content s)
  /\ (In 36%N (json_escape_content s) -> In 36%N s)
  /\ (Forall (fun c => plain c = true) s -> json_escape_content s = s).
Proof.
  unfold json_escape_content. split; [| split].
  - apply Forall_forall. intros d Hd. apply in_flat_map in Hd.
    destruct Hd as (c & _ & Hd). apply escape_char_chars in Hd.
    unfold printable.
    destruct Hd as [(-> & Hp & _) | [-> | [-> | [H | H]]]];
      [exact Hp | reflexivity | reflexivity | |];
      apply andb_true_iff; split; apply N.leb_le; lia.
  - intro H. apply in_flat_map in H. destruct H as (c & Hc & Hd).
    apply escape_char_chars in Hd.
    destruct Hd as [(<- & _) | [H | [H | [H | H]]]];
      [exact Hc | discriminate | discriminate | lia | lia].
  - induction 1 as [| c s Hc _ IH]; [reflexivity |].
    cbn [flat_map]. rewrite (escape_char_plain c Hc), IH. reflexivity.
Qed.

(** *** Replacing *)

Lemma escape_dollar_free (s : str) :
  dollar_free s -> dollar_free (json_escape_content s).
Proof.
  unfold dollar_free, json_escape_content. intros Hs H. apply Hs.
  apply in_flat_map in H. destruct H as (c & Hc & Hd).
  apply escape_char_chars in Hd.
  destruct Hd as [(<- & _) | [H | [H | [H | H]]]];
    [exact Hc | discriminate | discriminate | lia | lia].
Qed.

Lemma replace_eq (s old new : str) :
  old <> [] ->
  replace s old new
  = match find_at old s 0 with
    | None => s
    | Some i =>
        firstn i s ++ new ++ replace (skipn (i + length old) s) old new
    end.
Proof.
  intro Hold. unfold replace. rewrite split_eq by exact Hold.
  destruct (find_at old s 0) as [i |]; [| reflexivity].
  pose proof (split_not_nil (skipn (i + length old) s) old) as Hne.
  cbn [join].
  destruct (split (skipn (i + length old) s) old); [congruence |].
  reflexivity.
Qed.

Lemma find_at_behind (old seg rest : str) :
  skippable old seg ->
  find_at old (seg ++ rest) 0
  = option_map (Nat.add (length seg)) (find_at old rest 0).
Proof.
  intro Hskip.
  assert (Hshift : forall j, skipn (length seg + j) (seg ++ rest)
                             = skipn j rest).
  { intro j. rewrite skipn_app.
    replace (length seg + j - length seg) with j by lia.
    rewrite skipn_all2 by lia. reflexivity. }
  destruct (find_at old rest 0) as [i |] eqn:Ei; cbn [option_map].
  - destruct (find_at_Some _ _ _ Ei) as (Hocc & Hle & Hmin).
    apply find_at_first.
    + rewrite Hshift. exact Hocc.
    + rewrite length_app. lia.
    + intros j Hj. destruct (Nat.lt_ge_cases j (length seg)) as [Hlt | Hge].
      * apply Hskip. exact Hlt.
      * replace j with (length seg + (j - length seg)) by lia.
        rewrite Hshift. apply Hmin. lia.
  - destruct (find_at old (seg ++ rest) 0) as [k |] eqn:Ek; [| reflexivity].
    exfalso. destruct (find_at_Some _ _ _ Ek) as (Hocc & _ & _).
    destruct (Nat.lt_ge_cases k (length seg)) as [Hlt | Hge].
    + rewrite (Hskip k rest Hlt) in Hocc. discriminate.
    + replace k with (length seg + (k - length seg)) in Hocc by lia.
      rewrite Hshift, (find_at_None _ _ Ei) in Hocc. discriminate.
Qed.

(** A piece in which [old] cannot begin is copied. *)
Lemma replace_behind (old new seg rest : str) :
  old <> [] -> skippable old seg ->
  replace (seg ++ rest) old new = seg ++ replace rest old new.
Proof.
  intros Hold Hskip.
  rewrite (replace_eq (seg ++ rest)), (replace_eq rest) by exact Hold.
  rewrite (find_at_behind old seg rest Hskip).
  destruct (find_at old rest 0) as [i |]; cbn [option_map]; [| reflexivity].
  rewrite firstn_app.
  replace (length seg + i - length seg) with i by lia.
  rewrite firstn_all2 by lia.
  rewrite skipn_app.
  replace (length seg + i + length old - length seg)
    with (i + length old) by lia.
  rewrite skipn_all2 by lia.
  cbn [app]. rewrite <- app_assoc. reflexivity.
Qed.

(** A piece that is [old] is replaced. *)
Lemma replace_here (old new rest : str) :
  old <> [] ->
  replace (old ++ rest) old new = new ++ replace rest old new.
Proof.
  intro Hold. rewrite (replace_eq (old ++ rest)) by exact Hold.
  assert (H0 : find_at old (old ++ rest) 0 = Some 0).
  { apply find_at_first; [apply starts_with_app | lia | lia]. }
  rewrite H0. cbn [firstn app Nat.add].
  rewrite skipn_app, Nat.sub_diag, skipn_all. reflexivity.
Qed.

Lemma replace_nil (old new : str) : old <> [] -> replace [] old new = [].
Proof.
  intro Hold. rewrite replace_eq by exact Hold.
  destruct old; [congruence | reflexivity].
Qed.

Lemma skippable_dollar_free (t seg : str) :
  dollar_free seg -> skippable (36%N :: t) seg.
Proof.
  intros Hfree j rest Hj.
  rewrite skipn_app. replace (j - length seg) with 0 by lia.
  cbn [skipn].
  destruct (skipn j seg) as [| c u] eqn:E.
  - apply (f_equal (@length _)) in E. rewrite length_skipn in E.
    cbn in E. lia.
  - cbn [app starts_with].
    destruct (char_eqb 36%N c) eqn:Ec; [| reflexivity].
    exfalso. apply char_eqb_eq in Ec. subst c. apply Hfree.
    rewrite <- (firstn_skipn j seg), E. apply in_or_app. right. left.
    reflexivity.
Qed.

(** Another marker: a dollar sign, then text without one, which [old]
    does not begin. *)
Lemma skippable_marker (t : str) (c : char) (u : str) :
  dollar_free u ->
  (forall rest, starts_with (36%N :: t) ((c :: u) ++ rest) = false) ->
  skippable (36%N :: t) (c :: u).
Proof.
  intros Hu H0 j rest Hj. destruct j as [| j]; [apply H0 |].
  cbn [app skipn].
  apply (skippable_dollar_free t u Hu j rest). cbn in Hj. lia.
Qed.

Lemma placeholder_shape (k : slot) :
  exists t, placeholder k = 36%N :: t /\ dollar_free t.
Proof.
  destruct k; eexists; (split; [reflexivity |]);
    intro H; cbn in H;
    repeat (destruct H as [H | H]; [discriminate |]); contradiction.
Qed.

Lemma placeholder_not_nil (k : slot) : placeholder k <> [].
Proof. destruct k; discriminate. Qed.

Lemma placeholders_differ (k k' : slot) (rest : str) :
  slot_eqb k' k = false ->
  starts_with (placeholder k) (placeholder k' ++ rest) = false.
Proof. destruct k, k'; intro H; try discriminate; reflexivity. Qed.

Lemma value_dollar_free (context selection hints : str) (k : slot) :
  dollar_free context -> dollar_free selection -> dollar_free hints ->
  dollar_free (value context selection hints k).
Proof.
  intros Hc Hs Hh. destruct k; cbn [value];
    auto using escape_dollar_free.
Qed.

(** One pass of [replace] fills one more placeholder. *)
Lemma replace_stage (context selection hints : str) (done : slot -> bool)
    (k : slot) (ps : list piece) :
  dollar_free context -> dollar_free selection -> dollar_free hints ->
  Forall (fun p => match p with Lit s => dollar_free s | Slot _ => True end)
         ps ->
  done k = false ->
  replace (concat (map (stage context selection hints done) ps))
          (placeholder k) (value context selection hints k)
  = concat (map (stage context selection hints
                   (fun k' => slot_eqb k' k || done k')) ps).
Proof.
  intros Hc Hs Hh Hps Hk.
  destruct (placeholder_shape k) as (t & Et & Ht).
  pose proof (placeholder_not_nil k) as Hne.
  induction Hps as [| p ps Hp _ IH]; cbn [map concat].
  - apply replace_nil. exact Hne.
  - destruct p as [s | k']; cbn [stage].
    + rewrite replace_behind, IH; [reflexivity | exact Hne |].
      rewrite Et. apply skippable_dollar_free. exact Hp.
    + destruct (slot_eqb k' k) eqn:Ek; cbn [orb].
      * assert (k' = k) by (destruct k', k; try discriminate; reflexivity).
        subst k'. rewrite Hk, replace_here, IH; [reflexivity | exact Hne].
      * destruct (done k') eqn:Ed.
        -- rewrite replace_behind, IH; [reflexivity | exact Hne |].
           rewrite Et. apply skippable_dollar_free.
           apply value_dollar_free; assumption.
        -- rewrite replace_behind, IH; [reflexivity | exact Hne |].
           destruct (placeholder_shape k') as (t' & Et' & Ht').
           rewrite Et, Et'. apply skippable_marker; [exact Ht' |].
           intro rest.
           pose proof (placeholders_differ k k' rest Ek) as Hd.
           rewrite Et, Et' in Hd. exact Hd.
Qed.

(** X21. On a template made of text without dollar signs and of the four
    placeholders, and for a context, a selection and hints without dollar
    signs, the four replacements in a row fill every placeholder at once:
    each [${context}] by the escaped context, each [${selection}] by the
    escaped selection, and each [${hints}] and [${dictionary}] by the
    hints. *)
Theorem interpolate_prompt_fills (context selection hints : str)
    (ps : list piece) :
  dollar_free context -> dollar_free selection -> dollar_free hints ->
  Forall (fun p => match p with Lit s => dollar_free s | Slot _ => True end)
         ps ->
  interpolate_prompt (render ps) context selection hints
  = fill context selection hints ps.
Proof.
  intros Hc Hs Hh Hps. unfold interpolate_prompt. cbv zeta.
  set (st := stage context selection hints).
  assert (E0 : render ps = concat (map (st (fun _ => false)) ps)).
  { reflexivity. }
  rewrite E0.
  pose proof (replace_stage context selection hints (fun _ => false)
                Context ps Hc Hs Hh Hps eq_refl) as H1.
  cbn [value placeholder] in H1. fold st in H1. rewrite H1.
  pose proof (replace_stage context selection hints
                (fun k' => slot_eqb k' Context || false)
                Selection ps Hc Hs Hh Hps eq_refl) as H2.
  cbn [value placeholder] in H2. fold st in H2. rewrite H2.
  pose proof (replace_stage context selection hints
                (fun k' => slot_eqb k' Selection
                           || (slot_eqb k' Context || false))
                Hints ps Hc Hs Hh Hps eq_refl) as H3.
  cbn [value placeholder] in H3. fold st in H3. rewrite H3.
  pose proof (replace_stage context selection hints
                (fun k' => slot_eqb k' Hints
                           || (slot_eqb k' Selection
                               || (slot_eqb k' Context || false)))
                Dictionary ps Hc Hs Hh Hps eq_refl) as H4.
  cbn [value placeholder] in H4. fold st in H4. rewrite H4.
  unfold fill. apply (f_equal (@concat char)). apply map_ext.
  intros [s | k]; [reflexivity | destruct k; reflexivity].
Qed.

End PromptSpec.

(** ** The benchmark against the server *)

Module SidecarSpec.
Import PyStr Cleaner Occ Server Lifecycle Scripts PyStrFacts CleanerSpec.



End SidecarSpec.

(** ** The further statements at concrete inputs *)

Module MoreWitnesses.
Import PyStr Cleaner Occ Blocks Server Lifecycle Scripts Prompt Fixtures.
Import LifecycleSpec CleanerMore GenerateSpec ScriptsSpec PromptSpec.

Ltac no_dollar :=
  let H := fresh in
  intro H; cbn in H;
  repeat (destruct H as [H | H]; [discriminate |]); contradiction.

Lemma stale_path_after_unload_and_shutdown :
  get_status
    (shutdown
       (run (fst (load_model resident failing_path (Raises boom)))
            [ReqUnload (Returns tt); ReqStatus]))
  = {| status := py "running"; model_loaded := false;
       model_path := Some (py "mlx-community/Qwen3-0.6B-4bit") |}.
Proof.
  apply (stale_path_survives_unload resident
           (py "mlx-community/Qwen3-0.6B-4bit") failing_path boom
           [ReqUnload (Returns tt); ReqStatus]);
    reflexivity.
Defined.

Lemma clean_translation_passes_through :
  clean_text (py "  This is a clean translation. ")
  = strip (py "  This is a clean translation. ").
Proof.
  apply clean_text_only_strips;
    [reflexivity | reflexivity | vm_compute; lia].
Defined.

Lemma spaces_are_cleaned_away : clean_text (py "   ") = [].
Proof.
  apply clean_text_of_blank. repeat constructor.
Defined.

Lemma marker_inside_block_is_ignored :
  clean_text (py "a" ++ THINK_OPEN ++ py "x" ++ THINK_CLOSE ++ py "b")
  = clean_text
      (py "a" ++ THINK_OPEN ++ py "Output: y" ++ THINK_CLOSE ++ py "b").
Proof.
  apply block_content_is_ignored; reflexivity.
Defined.

Lemma marker_left_without_answer :
  exists p w, clean_text (py "Hello Output: ") = p ++ OUTPUT ++ w
              /\ contains OUTPUT p = false /\ blank_tail w.
Proof.
  apply clean_text_output_marker_left. reflexivity.
Defined.

Lemma generate_on_resident_model :
  (exists body,
      fst (generate_text canned_generate resident hello_request) = OK body)
  \/ (exists e,
        fst (generate_text canned_generate resident hello_request)
        = generation_failed e).
Proof.
  exact (proj1 (generate_resident_outcome canned_generate resident
                  hello_request 1%N plain_tokenizer eq_refl eq_refl)).
Defined.

Lemma hello_response_is_stripped : strip (py "Hello") = py "Hello".
Proof.
  exact (proj1 (generate_ok_response canned_generate resident hello_request
                  {| response := py "Hello"; tokens_generated := 5 |}
                  eq_refl)).
Defined.


Lemma fills_a_small_template :
  interpolate_prompt
    (render [Lit (py "Fix "); Slot Selection; Lit (py " in: ");
             Slot Context; Slot Hints])
    (py "I think their coming") (py "their") []
  = fill (py "I think their coming") (py "their") []
      [Lit (py "Fix "); Slot Selection; Lit (py " in: ");
       Slot Context; Slot Hints].
Proof.
  apply interpolate_prompt_fills; try no_dollar.
  repeat constructor; no_dollar.
Defined.

End MoreWitnesses.
